(** * The DNS proxy's script bridge: [dns_proxy_js_query.go]

    A shallow embedding of [JSQuery], the generic view of a DNS message that
    the proxy hands to a script, with its constructor [NewJSQuery], the
    reconstruction [ToQuery] and the fingerprint [NewHash] / [UpdateHash] /
    [WasModified].

    Conventions of the embedding:
    - a Go [string] is a [string]: a sequence of bytes, well-formed UTF-8 or
      not;
    - Go integers ([uint16], [int]) are [Z]; the only conversion the file
      applies, to [uint16], has its wrap-around written out;
    - a [map[string]T] is a [gmap string T]; a [map[string]interface{}] that
      may be [nil] is an [option] of one; a slice is a [list]: the four
      slices of a [JSQuery] are allocated by [make], and a [nil] slice is not
      among the states described here;
    - [interface{}] values that scripts and codecs store in a mapping are the
      [value]s below;
    - [log.Error] appends to a list of messages; a method with a pointer
      receiver is a function of the receiver that returns the receiver too. *)

From Stdlib Require Import ZArith String Ascii List DecimalString DecimalZ.
From stdpp Require Import gmap strings list fin_maps sorting.

Set Warnings "-register-all".

(** ** Formatting verbs of [fmt.Sprintf] *)
Module fmt.

(** [%t] *)
Definition verb_t (b : bool) : string := if b then "true" else "false".

(** [%d] *)
Definition verb_d (n : Z) : string := NilZero.string_of_int (Z.to_int n).

(** [%s] of the bytes a call returned beside an error that was discarded:
    the text, or nothing for the [nil] slice of a failed call. *)
Definition verb_s (bytes : option string) : string := default "" bytes.

(** A format made of verbs separated by single dots, as both formats of
    [NewHash] are: the arguments, already printed, joined by ["."]. *)
Definition dotted (args : list string) : string := String.concat "." args.

End fmt.

(** ** [unicode/utf8]: the characters of a text *)
Module utf8.

Definition in_range (lo hi : N) (c : ascii) : bool :=
  ((lo <=? N_of_ascii c) && (N_of_ascii c <=? hi))%N.

(** The first byte of [s] and what follows it, when that byte is in the
    range [lo..hi]. *)
Definition accept (lo hi : N) (s : string) : option (ascii * string) :=
  match s with
  | "" => None
  | String d r => if in_range lo hi d then Some (d, r) else None
  end.

Definition continuation : string → option (ascii * string) := accept 128 191.

(** One, two or three continuation bytes at the front of [s], the first of
    them in the range [lo..hi], and the text after them. *)
Definition tail1 (lo hi : N) (s : string) : option (string * string) :=
  '(d1, r1) ← accept lo hi s; Some (String d1 "", r1).

Definition tail2 (lo hi : N) (s : string) : option (string * string) :=
  '(d1, r1) ← accept lo hi s; '(d2, r2) ← continuation r1;
  Some (String d1 (String d2 ""), r2).

Definition tail3 (lo hi : N) (s : string) : option (string * string) :=
  '(d1, r1) ← accept lo hi s; '(d2, r2) ← continuation r1;
  '(d3, r3) ← continuation r2;
  Some (String d1 (String d2 (String d3 "")), r3).

(** [DecodeRuneInString] at a first byte [c] of 0x80 or more, followed by
    [s]: the continuation bytes of the character [c] starts and the text
    after them, or [None] when no well-formed character starts there (the
    decoder then answers [RuneError] with width 1).  The ranges are those of
    the decoder's tables: no overlong form, no surrogate, nothing above
    U+10FFFF. *)
Definition rune_tail (c : ascii) (s : string) : option (string * string) :=
  let b := N_of_ascii c in
  if in_range 194 223 c then tail1 128 191 s
  else if (b =? 224)%N then tail2 160 191 s
  else if (b =? 237)%N then tail2 128 159 s
  else if in_range 225 239 c then tail2 128 191 s
  else if (b =? 240)%N then tail3 144 191 s
  else if in_range 241 243 c then tail3 128 191 s
  else if (b =? 244)%N then tail3 128 143 s
  else None.

(** [ValidString], character by character; each step takes at least one
    byte, so the length of the text is fuel enough. *)
Fixpoint valid_fuel (fuel : nat) (s : string) : bool :=
  match s, fuel with
  | "", _ => true
  | String _ _, O => false
  | String c s', S fuel =>
      if (N_of_ascii c <? 128)%N then valid_fuel fuel s'
      else match rune_tail c s' with
           | None => false
           | Some (_, rest) => valid_fuel fuel rest
           end
  end.

Definition ValidString (s : string) : bool := valid_fuel (String.length s) s.

End utf8.

(** ** [encoding/json]: what [json.Marshal] writes *)
Module json.

(** The dynamic values found in a [map[string]interface{}].  [VNum] is a
    number with an integer value, of any Go integer type or a [float64]
    below 1e21, which all print the same digits; a number with a fraction or
    printed with an exponent has no counterpart here.  [VUnsupported] is a
    value [Marshal] has no encoding for, such as a NaN or an infinite
    [float64]. *)
Inductive value : Type :=
| VNull
| VBool (b : bool)
| VNum (n : Z)
| VString (s : string)
| VArray (l : list value)
| VObject (m : gmap string value)
| VUnsupported.

Definition quote : ascii := "034"%char.
Definition backslash : ascii := "092"%char.

Definition hex_digit (n : N) : ascii :=
  match n with
  | 0 => "0" | 1 => "1" | 2 => "2" | 3 => "3" | 4 => "4" | 5 => "5"
  | 6 => "6" | 7 => "7" | 8 => "8" | 9 => "9" | 10 => "a" | 11 => "b"
  | 12 => "c" | 13 => "d" | 14 => "e" | _ => "f"
  end%char%N.

(** One byte below 0x80 of a string literal.  The quote and the backslash
    are escaped, the control characters have their short or [\u00XX] form,
    and so have [<], [>] and [&] (Marshal escapes for HTML). *)
Definition escape_char (c : ascii) : string :=
  let n := N_of_ascii c in
  let esc (x : ascii) := String backslash (String x "") in
  if (n =? 34)%N then esc quote
  else if (n =? 92)%N then esc backslash
  else if (n =? 8)%N then esc "b"%char
  else if (n =? 12)%N then esc "f"%char
  else if (n =? 10)%N then esc "n"%char
  else if (n =? 13)%N then esc "r"%char
  else if (n =? 9)%N then esc "t"%char
  else if ((n <? 32) || (n =? 60) || (n =? 62) || (n =? 38))%N then
    String backslash
      (String "u"%char (String "0"%char (String "0"%char
         (String (hex_digit (n / 16)) (String (hex_digit (n mod 16)) "")))))
  else String c "".

(** What is written for a byte that starts no well-formed character. *)
Definition replacement : string := String backslash "ufffd".

(** U+2028 and U+2029, the bytes E2 80 A8 and E2 80 A9, are written as
    escapes. *)
Definition separator (c : ascii) (tail : string) : option string :=
  if (N_of_ascii c =? 226)%N then
    match tail with
    | String d1 (String d2 "") =>
        if (N_of_ascii d1 =? 128)%N then
          if (N_of_ascii d2 =? 168)%N then Some (String backslash "u2028")
          else if (N_of_ascii d2 =? 169)%N then Some (String backslash "u2029")
          else None
        else None
    | _ => None
    end
  else None.

(** The body of a string literal: bytes below 0x80 by [escape_char]; a
    well-formed character of several bytes as it is, the two separators
    apart; [replacement] for each byte that starts no well-formed
    character.  Each step takes at least one byte. *)
Fixpoint escape_fuel (fuel : nat) (s : string) : string :=
  match s, fuel with
  | "", _ => ""
  | String _ _, O => ""
  | String c s', S fuel =>
      if (N_of_ascii c <? 128)%N then escape_char c +:+ escape_fuel fuel s'
      else match utf8.rune_tail c s' with
           | None => replacement +:+ escape_fuel fuel s'
           | Some (tail, rest) =>
               match separator c tail with
               | Some esc => esc +:+ escape_fuel fuel rest
               | None => String c (tail +:+ escape_fuel fuel rest)
               end
           end
  end.

Definition escape (s : string) : string := escape_fuel (String.length s) s.

Definition string_literal (s : string) : string :=
  String quote (escape s +:+ String quote "").

(** The members of an object are written in the order of their keys. *)
Definition key_le : relation (string * string) :=
  λ a b, String.le a.1 b.1.

Global Instance key_le_dec : RelDecision key_le.
Proof. intros a b. unfold key_le. apply _. Defined.

Definition member (kv : string * string) : string :=
  string_literal kv.1 +:+ ":" +:+ kv.2.

Definition members (kvs : list (string * string)) : string :=
  String.concat "," (member <$> merge_sort key_le kvs).

Definition braces (s : string) : string := "{" +:+ s +:+ "}".
Definition brackets (s : string) : string := "[" +:+ s +:+ "]".

(** [Marshal] fails on a value that holds an unsupported one anywhere. *)
Fixpoint supported (v : value) : bool :=
  match v with
  | VUnsupported => false
  | VArray l => forallb supported l
  | VObject m => forallb snd (map_to_list (supported <$> m))
  | _ => true
  end.

(** The text of a supported value. *)
Fixpoint marshal (v : value) : string :=
  match v with
  | VNull => "null"
  | VBool b => fmt.verb_t b
  | VNum n => fmt.verb_d n
  | VString s => string_literal s
  | VArray l => brackets (String.concat "," (marshal <$> l))
  | VObject m => braces (members (map_to_list (marshal <$> m)))
  | VUnsupported => ""
  end.

(** A [map[string]interface{}]; [None] is the [nil] map, written [null]. *)
Definition supported_map (o : option (gmap string value)) : bool :=
  match o with
  | None => true
  | Some m => supported (VObject m)
  end.

Definition marshal_map (o : option (gmap string value)) : string :=
  match o with
  | None => "null"
  | Some m => marshal (VObject m)
  end.

(** What [Marshal] returns for one mapping: its text, or the error. *)
Definition encode_map (o : option (gmap string value)) : option string :=
  if supported_map o then Some (marshal_map o) else None.

(** The text of a slice of supported mappings. *)
Definition array_text (l : list (option (gmap string value))) : string :=
  brackets (String.concat "," (marshal_map <$> l)).

(** [json.Marshal] of a [[]map[string]interface{}]: the text, or [None]
    for the error it returns when a mapping holds an unsupported value. *)
Definition Marshal (l : list (option (gmap string value))) : option string :=
  if forallb supported_map l then Some (array_text l) else None.

End json.
Export json(value, VNull, VBool, VNum, VString, VArray, VObject, VUnsupported).

Abbreviation jsmap := (option (gmap string value)).

(** ** [github.com/miekg/dns]: the wire message *)
Module dns.

Record Question : Type := mkQuestion {
  Name : string;
  Qtype : Z;   (* uint16 *)
  Qclass : Z   (* uint16 *)
}.

Record MsgHdr : Type := mkMsgHdr {
  Id : Z;      (* uint16 *)
  Response : bool;
  Opcode : Z;
  Authoritative : bool;
  Truncated : bool;
  RecursionDesired : bool;
  RecursionAvailable : bool;
  Zero : bool;
  AuthenticatedData : bool;
  CheckingDisabled : bool;
  Rcode : Z
}.

(** [RR] is the resource record interface; the bridge never looks inside. *)
Record Msg (RR : Type) : Type := mkMsg {
  Hdr : MsgHdr;
  Compress : bool;
  Question_ : list Question;
  Answer : list RR;
  Ns : list RR;
  Extra : list RR
}.
Global Arguments mkMsg {RR}.
Global Arguments Hdr {RR}.
Global Arguments Compress {RR}.
Global Arguments Question_ {RR}.
Global Arguments Answer {RR}.
Global Arguments Ns {RR}.
Global Arguments Extra {RR}.



End dns.

(** ** Collaborators *)

(** A Go result [(v, err)]: the value, or the message of the error. *)
Inductive result (A : Type) : Type :=
| Ok (v : A)
| Err (err : string).
Global Arguments Ok {A}.
Global Arguments Err {A}.

(** The record codec of the package, [NewJSResourceRecord] and [ToRR]. *)
Class RecordCodec (RR : Type) : Type := {
  NewJSResourceRecord : RR → result jsmap;
  ToRR : jsmap → result RR
}.

(** What the codec writes it reads back as the record it was given. *)
Definition represents `{RecordCodec RR} (rr : RR) : Prop :=
  ∃ js, NewJSResourceRecord rr = Ok js ∧ ToRR js = Ok rr.

(** [session.I.Lan.GetByIp]: the endpoint known under an address, if any. *)
Record Endpoint : Type := mkEndpoint {
  HwAddress : string;
  Alias : string
}.

Class Lan : Type := GetByIp : string → option Endpoint.

(** ** Effects *)

(** A computation that may call [log.Error]: its value and the messages it
    logged, oldest first. *)
Definition Logged (A : Type) : Type := A * list string.

Global Instance Logged_ret : MRet Logged := λ A a, (a, []).

Global Instance Logged_bind : MBind Logged := λ A B k c,
  let r := k c.1 in (r.1, c.2 ++ r.2).

Definition log_Error (err : string) : Logged unit := (tt, [err]).

(** [for i, x := range l { s = body i x s }], from index [i]. *)
Fixpoint for_range {A St} (body : nat → A → St → Logged St)
    (i : nat) (l : list A) (s : St) : Logged St :=
  match l with
  | [] => mret s
  | x :: l' => s' ← body i x s; for_range body (S i) l' s'
  end.

(** ** The generic representation *)

Record JSQueryHeader : Type := mkJSQueryHeader {
  AuthenticatedData : bool;
  Authoritative : bool;
  CheckingDisabled : bool;
  Id : Z;        (* uint16 *)
  Opcode : Z;
  Rcode : Z;
  RecursionAvailable : bool;
  RecursionDesired : bool;
  Response : bool;
  Truncated : bool;
  Zero : bool
}.

Record JSQuery : Type := mkJSQuery {
  Answers : list jsmap;
  Client : gmap string string;
  Compress : bool;
  Extras : list jsmap;
  Header : JSQueryHeader;
  Nameservers : list jsmap;
  Questions : list jsmap;
  refHash : string
}.

(** Assignments to one field, as Go code or a script writes them. *)
Definition set_Answers (x : list jsmap) (j : JSQuery) : JSQuery :=
  mkJSQuery x (Client j) (Compress j) (Extras j) (Header j) (Nameservers j)
    (Questions j) (refHash j).
Definition set_Client (x : gmap string string) (j : JSQuery) : JSQuery :=
  mkJSQuery (Answers j) x (Compress j) (Extras j) (Header j) (Nameservers j)
    (Questions j) (refHash j).
Definition set_Compress (x : bool) (j : JSQuery) : JSQuery :=
  mkJSQuery (Answers j) (Client j) x (Extras j) (Header j) (Nameservers j)
    (Questions j) (refHash j).
Definition set_Extras (x : list jsmap) (j : JSQuery) : JSQuery :=
  mkJSQuery (Answers j) (Client j) (Compress j) x (Header j) (Nameservers j)
    (Questions j) (refHash j).
Definition set_Header (x : JSQueryHeader) (j : JSQuery) : JSQuery :=
  mkJSQuery (Answers j) (Client j) (Compress j) (Extras j) x (Nameservers j)
    (Questions j) (refHash j).
Definition set_Nameservers (x : list jsmap) (j : JSQuery) : JSQuery :=
  mkJSQuery (Answers j) (Client j) (Compress j) (Extras j) (Header j) x
    (Questions j) (refHash j).
Definition set_Questions (x : list jsmap) (j : JSQuery) : JSQuery :=
  mkJSQuery (Answers j) (Client j) (Compress j) (Extras j) (Header j)
    (Nameservers j) x (refHash j).
Definition set_refHash (x : string) (j : JSQuery) : JSQuery :=
  mkJSQuery (Answers j) (Client j) (Compress j) (Extras j) (Header j)
    (Nameservers j) (Questions j) x.

(** A method with receiver [j *JSQuery]: from the receiver to the value it
    returns and the receiver it leaves, with what it logged. *)
Definition Method (A : Type) : Type := JSQuery → Logged (A * JSQuery).

Global Instance Method_ret : MRet Method := λ A a j, mret (a, j).

Global Instance Method_bind : MBind Method := λ A B k c j,
  r ← c j; k r.1 r.2.

(** [j.f], read. *)
Definition field {A} (f : JSQuery → A) : Method A := λ j, mret (f j, j).

(** [j.refHash = h]: the one assignment to the receiver in the file. *)
Definition assign_refHash (h : string) : Method unit :=
  λ j, mret (tt, set_refHash h j).

(** A computation that does not touch the receiver. *)
Definition logging {A} (c : Logged A) : Method A :=
  λ j, a ← c; mret (a, j).

Definition returned {A} (c : Method A) (j : JSQuery) : A := (c j).1.1.
Definition receiver_after {A} (c : Method A) (j : JSQuery) : JSQuery :=
  (c j).1.2.
Definition logged_by {A} (c : Method A) (j : JSQuery) : list string :=
  (c j).2.

(** ** Field coercion helpers *)

(** Go's conversion to [uint16]. *)
Definition to_uint16 (n : Z) : Z := (n mod 65536)%Z.

(** [obj[key]]; reading a [nil] map finds nothing. *)
Definition prop (obj : jsmap) (key : string) : option value :=
  m ← obj; m !! key.

(** Modelled from the spec: [jsPropToString], whose definition is in another
    file of the package.  The entry under [key] coerced to a string: a
    missing entry or one that is not a string gives the empty string. *)
Definition jsPropToString (obj : jsmap) (key : string) : string :=
  match prop obj key with
  | Some (VString s) => s
  | _ => ""
  end.

(** Modelled from the spec: [jsPropToUint16], whose definition is in another
    file of the package.  The entry under [key] coerced to an unsigned 16-bit
    integer: a missing entry or one that is not a number gives zero. *)
Definition jsPropToUint16 (obj : jsmap) (key : string) : Z :=
  match prop obj key with
  | Some (VNum n) => to_uint16 n
  | _ => 0%Z
  end.

(** ** The bridge *)

Definition headerHash (h : JSQueryHeader) : string :=
  fmt.dotted [
    fmt.verb_t (AuthenticatedData h);
    fmt.verb_t (Authoritative h);
    fmt.verb_t (CheckingDisabled h);
    fmt.verb_d (Id h);
    fmt.verb_d (Opcode h);
    fmt.verb_d (Rcode h);
    fmt.verb_t (RecursionAvailable h);
    fmt.verb_t (RecursionDesired h);
    fmt.verb_t (Response h);
    fmt.verb_t (Truncated h);
    fmt.verb_t (Zero h) ].

(** [j.Client["IP"]]: the empty string when the key is absent. *)
Definition client_ip (client : gmap string string) : string :=
  default "" (client !! "IP").

Definition NewHash : Method string :=
  answers ← field (λ j, json.Marshal (Answers j));
  extras ← field (λ j, json.Marshal (Extras j));
  nameservers ← field (λ j, json.Marshal (Nameservers j));
  questions ← field (λ j, json.Marshal (Questions j));
  header ← field Header;
  client ← field Client;
  compress ← field Compress;
  mret (fmt.dotted [
    fmt.verb_s answers;
    client_ip client;
    fmt.verb_t compress;
    fmt.verb_s extras;
    headerHash header;
    fmt.verb_s nameservers;
    fmt.verb_s questions ]).

Definition UpdateHash : Method unit :=
  h ← NewHash; assign_refHash h.

Definition WasModified : Method bool :=
  h ← NewHash;
  ref ← field refHash;
  mret (negb (String.eqb h ref)).

Section bridge.
Context {RR : Type} `{!RecordCodec RR} `{!Lan}.

(** The loop [NewJSQuery] runs on each of the three record lists: the
    result has one slot per record, filled where the codec succeeds. *)
Definition records_to_js (rrs : list RR) : Logged (list jsmap) :=
  for_range (λ i rr (answers : list jsmap),
      match NewJSResourceRecord rr with
      | Err err => log_Error err;; mret answers
      | Ok jsRecord => mret (<[i := jsRecord]> answers)
      end)
    0 rrs (replicate (length rrs) None).

(** The mapping built for one question. *)
Definition question_to_js (question : dns.Question) : jsmap :=
  Some (<["Name" := VString (dns.Name question)]>
       (<["Qtype" := VNum (dns.Qtype question)]>
       (<["Qclass" := VNum (dns.Qclass question)]> ∅))).

Definition questions_to_js (qs : list dns.Question) : Logged (list jsmap) :=
  for_range (λ i question (questions : list jsmap),
      mret (<[i := question_to_js question]> questions))
    0 qs (replicate (length qs) None).

Definition NewJSQuery (query : dns.Msg RR) (clientIP : string)
    : Logged JSQuery :=
  answers ← records_to_js (dns.Answer query);
  extras ← records_to_js (dns.Extra query);
  nameservers ← records_to_js (dns.Ns query);
  questions ← questions_to_js (dns.Question_ query);
  let '(clientMAC, clientAlias) :=
    match GetByIp clientIP with
    | Some endpoint => (HwAddress endpoint, Alias endpoint)
    | None => ("", "")
    end in
  let client : gmap string string :=
    <["IP" := clientIP]> (<["MAC" := clientMAC]>
      (<["Alias" := clientAlias]> ∅)) in
  let hdr := dns.Hdr query in
  let jsquery := {|
    Answers := answers;
    Client := client;
    Compress := dns.Compress query;
    Extras := extras;
    Header := {|
      AuthenticatedData := dns.AuthenticatedData hdr;
      Authoritative := dns.Authoritative hdr;
      CheckingDisabled := dns.CheckingDisabled hdr;
      Id := dns.Id hdr;
      Opcode := dns.Opcode hdr;
      Rcode := dns.Rcode hdr;
      RecursionAvailable := dns.RecursionAvailable hdr;
      RecursionDesired := dns.RecursionDesired hdr;
      Response := dns.Response hdr;
      Truncated := dns.Truncated hdr;
      Zero := dns.Zero hdr |};
    Nameservers := nameservers;
    Questions := questions;
    refHash := "" |} in
  r ← UpdateHash jsquery;
  mret r.2.

(** The loop [ToQuery] runs on each of the three lists of mappings. *)
Definition js_to_records (l : list jsmap) : Logged (list RR) :=
  for_range (λ _ jsRR (answers : list RR),
      match ToRR jsRR with
      | Err err => log_Error err;; mret answers
      | Ok rr => mret (answers ++ [rr])
      end)
    0 l [].

(** The question rebuilt from one mapping. *)
Definition js_to_question (jsQ : jsmap) : dns.Question := {|
  dns.Name := jsPropToString jsQ "Name";
  dns.Qtype := jsPropToUint16 jsQ "Qtype";
  dns.Qclass := jsPropToUint16 jsQ "Qclass" |}.

Definition js_to_questions (l : list jsmap) : Logged (list dns.Question) :=
  for_range (λ _ jsQ (questions : list dns.Question),
      mret (questions ++ [js_to_question jsQ]))
    0 l [].

Definition ToQuery : Method (dns.Msg RR) :=
  answers ← field Answers ≫= logging ∘ js_to_records;
  extras ← field Extras ≫= logging ∘ js_to_records;
  nameservers ← field Nameservers ≫= logging ∘ js_to_records;
  questions ← field Questions ≫= logging ∘ js_to_questions;
  header ← field Header;
  compress ← field Compress;
  mret {|
    dns.Hdr := {|
      dns.Id := Id header;
      dns.Response := Response header;
      dns.Opcode := Opcode header;
      dns.Authoritative := Authoritative header;
      dns.Truncated := Truncated header;
      dns.RecursionDesired := RecursionDesired header;
      dns.RecursionAvailable := RecursionAvailable header;
      dns.Zero := Zero header;
      dns.AuthenticatedData := AuthenticatedData header;
      dns.CheckingDisabled := CheckingDisabled header;
      dns.Rcode := Rcode header |};
    dns.Compress := compress;
    dns.Question_ := questions;
    dns.Answer := answers;
    dns.Ns := nameservers;
    dns.Extra := extras |}.

End bridge.

(** ** A small instance, to run the bridge on concrete messages *)
Module example.

(** Address records, and records of some other type that the codec of this
    instance refuses. *)
Inductive rr : Type :=
| A (name : string) (ttl : Z) (a : string)
| Other (rrtype : Z).

Definition encode (r : rr) : result jsmap :=
  match r with
  | A name ttl a =>
      Ok (Some (<["Header" := VObject (<["Name" := VString name]>
                                      (<["Ttl" := VNum ttl]> ∅))]>
               (<["A" := VString a]> ∅)))
  | Other _ => Err "unknown type"
  end.

Definition decode (js : jsmap) : result rr :=
  match prop js "Header", prop js "A" with
  | Some (VObject h), Some (VString a) =>
      match h !! "Name", h !! "Ttl" with
      | Some (VString name), Some (VNum ttl) => Ok (A name ttl a)
      | _, _ => Err "bad header"
      end
  | _, _ => Err "bad record"
  end.

Global Instance codec : RecordCodec rr :=
  {| NewJSResourceRecord := encode; ToRR := decode |}.

Global Instance lan : Lan := λ ip,
  if String.eqb ip "10.0.0.7"
  then Some {| HwAddress := "aa:bb:cc:dd:ee:ff"; Alias := "laptop" |}
  else None.

Definition hdr : dns.MsgHdr := {|
  dns.Id := 42; dns.Response := false; dns.Opcode := 0;
  dns.Authoritative := false; dns.Truncated := false;
  dns.RecursionDesired := true; dns.RecursionAvailable := false;
  dns.Zero := false; dns.AuthenticatedData := false;
  dns.CheckingDisabled := false; dns.Rcode := 0 |}.

Definition question : dns.Question :=
  {| dns.Name := "example.com."; dns.Qtype := 1; dns.Qclass := 1 |}.

Definition rr1 : rr := A "example.com." 300 "93.184.216.34".
Definition rr2 : rr := A "example.com." 60 "93.184.216.35".

(** The scenario of the specification: one question, no record. *)
Definition query : dns.Msg rr :=
  dns.mkMsg hdr false [question] [] [] [].

(** A response with two answers and one additional record. *)
Definition response : dns.Msg rr :=
  dns.mkMsg hdr true [question] [rr1; rr2] [] [rr2].

(** A response whose first answer the codec refuses. *)
Definition partial : dns.Msg rr :=
  dns.mkMsg hdr false [question] [Other 99; rr1] [] [].

End example.

(** ** Vocabulary of the proofs *)

(** [occurs c s]: the character [c] occurs in [s]. *)
Fixpoint occurs (c : ascii) (s : string) : bool :=
  match s with
  | "" => false
  | String a s' => bool_decide (a = c) || occurs c s'
  end.

(** The length of the members of [l], each followed by [sep]. *)
Definition total_length (sep : string) (l : list string) : nat :=
  sum_list_with (λ x, String.length x + String.length sep) l.

(** A decimal digit. *)
Definition is_digit (c : ascii) : bool :=
  let n := N_of_ascii c in (48 <=? n)%N && (n <=? 57)%N.

(** The value of a hexadecimal digit, the inverse of [json.hex_digit]. *)
Definition unhex (c : ascii) : option N :=
  let n := N_of_ascii c in
  if (48 <=? n)%N && (n <=? 57)%N then Some (n - 48)%N
  else if (97 <=? n)%N && (n <=? 102)%N then Some (n - 87)%N
  else None.

(** Where the reader of a string literal stands: in plain text, after a
    backslash, or in the hexadecimal digits of a [\u] escape, with the
    number still to read and the value read so far. *)
Inductive reading : Type :=
| Plain
| Escaped
| Hex (todo : nat) (acc : N).

Definition onto (c : ascii) (p : string * string) : string * string :=
  (String c p.1, p.2).

(** Reading a string literal back, from after its opening quote: the bytes
    it stands for and the text after its closing quote.  [None] for a text
    that [json.escape] does not write for a well-formed string. *)
Fixpoint unescape (st : reading) (s : string) : option (string * string) :=
  match s with
  | "" => None
  | String c r =>
      match st with
      | Plain =>
          if Ascii.eqb c json.quote then Some ("", r)
          else if Ascii.eqb c json.backslash then unescape Escaped r
          else onto c <$> unescape Plain r
      | Escaped =>
          if Ascii.eqb c json.quote then onto json.quote <$> unescape Plain r
          else if Ascii.eqb c json.backslash
            then onto json.backslash <$> unescape Plain r
          else if Ascii.eqb c "b" then onto "008"%char <$> unescape Plain r
          else if Ascii.eqb c "f" then onto "012"%char <$> unescape Plain r
          else if Ascii.eqb c "n" then onto "010"%char <$> unescape Plain r
          else if Ascii.eqb c "r" then onto "013"%char <$> unescape Plain r
          else if Ascii.eqb c "t" then onto "009"%char <$> unescape Plain r
          else if Ascii.eqb c "u" then unescape (Hex 4 0) r
          else None
      | Hex O _ => None
      | Hex (S todo) acc =>
          match unhex c with
          | None => None
          | Some h =>
              let v := (16 * acc + h)%N in
              match todo with
              | S _ => unescape (Hex todo v) r
              | O =>
                  if (v <? 256)%N then onto (ascii_of_N v) <$> unescape Plain r
                  else if (v =? 8232)%N then
                    (onto "226" ∘ onto "128" ∘ onto "168")%char
                      <$> unescape Plain r
                  else if (v =? 8233)%N then
                    (onto "226" ∘ onto "128" ∘ onto "169")%char
                      <$> unescape Plain r
                  else None
              end
          end
      end
  end.

(** Every byte of [s] is 0x80 or more. *)
Fixpoint all_high (s : string) : bool :=
  match s with
  | "" => true
  | String c s' => (128 <=? N_of_ascii c)%N && all_high s'
  end.

Definition add_front (p : string) (q : string * string) : string * string :=
  (p +:+ q.1, q.2).

(** What one conversion logs: the message of its error, if it failed. *)
Definition failure {A} (r : result A) : list string :=
  match r with Ok _ => [] | Err err => [err] end.

(** The slot [NewJSQuery] leaves for a record: its mapping, or the [nil] the
    slice was allocated with when the codec refuses the record. *)
Definition slot `{RecordCodec RR} (rr : RR) : jsmap :=
  match NewJSResourceRecord rr with Ok js => js | Err _ => None end.

(** What one conversion contributes to the list [ToQuery] builds. *)
Definition survivor {A} (r : result A) : list A :=
  match r with Ok v => [v] | Err _ => [] end.

(** The text [NewHash] returns, as a function of the receiver. *)
Definition fingerprint (j : JSQuery) : string :=
  fmt.dotted [
    fmt.verb_s (json.Marshal (Answers j));
    client_ip (Client j);
    fmt.verb_t (Compress j);
    fmt.verb_s (json.Marshal (Extras j));
    headerHash (Header j);
    fmt.verb_s (json.Marshal (Nameservers j));
    fmt.verb_s (json.Marshal (Questions j)) ].

(** * Facts *)

(** ** Facts about texts *)
Module text.

Lemma app_nil_l s : "" +:+ s = s.
Proof. done. Qed.

Lemma app_cons a s t : String a s +:+ t = String a (s +:+ t).
Proof. done. Qed.

Lemma app_nil_r s : s +:+ "" = s.
Proof. induction s as [|a s IH]; [done|]. by rewrite app_cons, IH. Qed.

Lemma app_assoc s t u : s +:+ (t +:+ u) = (s +:+ t) +:+ u.
Proof. induction s as [|a s IH]; [done|]. by rewrite !app_cons, IH. Qed.

Lemma length_app s t : String.length (s +:+ t) = String.length s + String.length t.
Proof. induction s as [|a s IH]; [done|]. rewrite app_cons. cbn. by rewrite IH. Qed.

Lemma app_inv_tail s1 s2 t : s1 +:+ t = s2 +:+ t → s1 = s2.
Proof.
  revert s2. induction s1 as [|a s1 IH]; intros [|b s2] E;
    rewrite ?app_cons, ?app_nil_l in E.
  - done.
  - apply (f_equal String.length) in E. cbn in E. rewrite length_app in E. lia.
  - apply (f_equal String.length) in E. cbn in E. rewrite length_app in E. lia.
  - injection E as -> E. f_equal. by apply IH.
Qed.

Lemma occurs_app c s t : occurs c (s +:+ t) = occurs c s || occurs c t.
Proof. induction s as [|a s IH]; [done|]. rewrite app_cons. cbn. rewrite IH. by rewrite orb_assoc. Qed.

(** Splitting at the first separator. *)
Lemma split_at c s1 s2 r1 r2 :
  occurs c s1 = false → occurs c s2 = false →
  s1 +:+ String c r1 = s2 +:+ String c r2 → s1 = s2 ∧ r1 = r2.
Proof.
  revert s2. induction s1 as [|a s1 IH]; intros [|b s2] H1 H2 E;
    rewrite ?app_cons, ?app_nil_l in E; cbn in *.
  - by injection E.
  - injection E as <- _. rewrite bool_decide_eq_true_2 in H2; done.
  - injection E as -> _. rewrite bool_decide_eq_true_2 in H1; done.
  - injection E as -> E. apply orb_false_elim in H1 as [_ H1], H2 as [_ H2].
    destruct (IH s2 H1 H2 E) as [-> ->]. done.
Qed.

(** Joined lists. *)
Lemma concat_cons sep x y l :
  String.concat sep (x :: y :: l) = x +:+ sep +:+ String.concat sep (y :: l).
Proof. done. Qed.

Lemma concat_context sep pre post :
  ∃ p q, ∀ x, String.concat sep (pre ++ x :: post) = p +:+ x +:+ q.
Proof.
  induction pre as [|a pre IH].
  - destruct post as [|b post].
    + exists "", "". intros x. cbn. by rewrite app_nil_r.
    + exists "", (sep +:+ String.concat sep (b :: post)). intros x. done.
  - destruct IH as (p & q & IH). exists (a +:+ sep +:+ p), q. intros x.
    specialize (IH x). destruct pre; cbn [app] in *; rewrite concat_cons, IH, !app_assoc; done.
Qed.

Lemma context_inj p q x y : p +:+ x +:+ q = p +:+ y +:+ q → x = y.
Proof. intros E. apply (inj _) in E. by apply app_inv_tail in E. Qed.

Lemma concat_replace sep pre post x y :
  String.concat sep (pre ++ x :: post) = String.concat sep (pre ++ y :: post) → x = y.
Proof.
  destruct (concat_context sep pre post) as (p & q & E). rewrite !E. apply context_inj.
Qed.

Lemma length_concat sep l :
  String.length (String.concat sep l) = total_length sep l - String.length sep.
Proof.
  unfold total_length. induction l as [|x l IH]; [done|].
  destruct l as [|y l].
  - cbn. lia.
  - rewrite concat_cons, !length_app, IH. cbn. lia.
Qed.

Lemma total_length_app sep l k :
  total_length sep (l ++ k) = total_length sep l + total_length sep k.
Proof. apply sum_list_with_app. Qed.

Lemma total_length_cons sep x l :
  total_length sep (x :: l) = String.length x + String.length sep + total_length sep l.
Proof. done. Qed.

End text.

(** ** Facts about the formatting verbs *)

Lemma verb_t_inj b1 b2 : fmt.verb_t b1 = fmt.verb_t b2 → b1 = b2.
Proof. by destruct b1, b2. Qed.

Lemma verb_t_no_dot b : occurs "." (fmt.verb_t b) = false.
Proof. by destruct b. Qed.

Lemma to_int_proper n : Z.to_int n ≠ Decimal.Pos Decimal.Nil ∧ Z.to_int n ≠ Decimal.Neg Decimal.Nil.
Proof.
  destruct n as [|p|p]; cbn; split; try done;
    intros [= E]; by apply DecimalPos.Unsigned.to_uint_nonnil in E.
Qed.

Lemma verb_d_inj n1 n2 : fmt.verb_d n1 = fmt.verb_d n2 → n1 = n2.
Proof.
  unfold fmt.verb_d. intros E. apply DecimalZ.to_int_inj.
  destruct (to_int_proper n1), (to_int_proper n2).
  apply (f_equal NilZero.int_of_string) in E.
  rewrite !NilZero.isi in E by done. congruence.
Qed.

Lemma string_of_uint_no_dot d : occurs "." (NilEmpty.string_of_uint d) = false.
Proof. induction d; cbn; done. Qed.

Lemma verb_d_no_dot n : occurs "." (fmt.verb_d n) = false.
Proof.
  unfold fmt.verb_d, NilZero.string_of_int, NilZero.string_of_uint.
  destruct (Z.to_int n) as [[]|[]]; cbn; try done; apply string_of_uint_no_dot.
Qed.

Lemma verb_d_head n :
  ∃ c s, fmt.verb_d n = String c s ∧ (c = "-"%char ∨ is_digit c = true).
Proof.
  unfold fmt.verb_d, NilZero.string_of_int, NilZero.string_of_uint.
  destruct (Z.to_int n) as [[]|[]]; cbn; eauto.
Qed.

Lemma headerHash_inj h1 h2 : headerHash h1 = headerHash h2 → h1 = h2.
Proof.
  destruct h1, h2. unfold headerHash, fmt.dotted. cbn.
  intros E.
  repeat match type of E with
  | _ +:+ "." +:+ _ = _ +:+ "." +:+ _ =>
      apply text.split_at in E as [?%verb_t_inj E] || apply text.split_at in E as [?%verb_d_inj E];
      [|by auto using verb_t_no_dot, verb_d_no_dot..]
  end.
  apply verb_t_inj in E. congruence.
Qed.

(** ** Facts about string literals *)

Lemma unescape_quote t : unescape Plain (String json.quote t) = Some ("", t).
Proof. done. Qed.

Lemma unescape_escape_char c x :
  (N_of_ascii c <? 128)%N = true →
  unescape Plain (json.escape_char c +:+ x) = onto c <$> unescape Plain x.
Proof. destruct c as [[] [] [] [] [] [] [] []]; (done || reflexivity). Qed.

Lemma unescape_high c x :
  (N_of_ascii c <? 128)%N = false →
  unescape Plain (String c x) = onto c <$> unescape Plain x.
Proof. destruct c as [[] [] [] [] [] [] [] []]; (done || reflexivity). Qed.

Lemma unescape_replacement x : unescape Plain (json.replacement +:+ x) = None.
Proof. done. Qed.

Lemma unescape_all_high p x :
  all_high p = true →
  unescape Plain (p +:+ x) = add_front p <$> unescape Plain x.
Proof.
  induction p as [|c p IH]; intros H.
  - rewrite text.app_nil_l. by destruct (unescape Plain x) as [[]|].
  - cbn in H. apply andb_true_iff in H as [Hc Hp]. rewrite text.app_cons.
    rewrite unescape_high by (apply N.ltb_ge; by apply N.leb_le in Hc).
    rewrite IH by done. by destruct (unescape Plain x) as [[]|].
Qed.

Lemma accept_spec lo hi s d r :
  utf8.accept lo hi s = Some (d, r) →
  s = String d r ∧ utf8.in_range lo hi d = true.
Proof.
  destruct s as [|c s]; [done|]. cbn. destruct (utf8.in_range lo hi c) eqn:E; [|done].
  by intros [= <- <-].
Qed.

Lemma in_range_high lo hi d :
  (128 ≤ lo)%N → utf8.in_range lo hi d = true → (128 <=? N_of_ascii d)%N = true.
Proof.
  unfold utf8.in_range. intros Hlo [H1 _]%andb_true_iff.
  apply N.leb_le in H1. apply N.leb_le. lia.
Qed.

Lemma tail_spec (lo hi : N) s tail rest :
  (128 ≤ lo)%N →
  utf8.tail1 lo hi s = Some (tail, rest) ∨ utf8.tail2 lo hi s = Some (tail, rest)
    ∨ utf8.tail3 lo hi s = Some (tail, rest) →
  s = tail +:+ rest ∧ all_high tail = true.
Proof.
  intros Hlo. unfold utf8.tail1, utf8.tail2, utf8.tail3, utf8.continuation.
  intros [H|[H|H]]; revert H.
  - destruct (utf8.accept lo hi s) as [[d1 r1]|] eqn:E1; [|done].
    apply accept_spec in E1 as [-> H1%in_range_high]; [|done].
    intros [= <- <-]. cbn. by rewrite H1.
  - destruct (utf8.accept lo hi s) as [[d1 r1]|] eqn:E1; [|done].
    apply accept_spec in E1 as [-> H1%in_range_high]; [|done]. cbn.
    destruct (utf8.accept 128 191 r1) as [[d2 r2]|] eqn:E2; [|done].
    apply accept_spec in E2 as [-> H2%in_range_high]; [|done].
    intros [= <- <-]. cbn. by rewrite H1, H2.
  - destruct (utf8.accept lo hi s) as [[d1 r1]|] eqn:E1; [|done].
    apply accept_spec in E1 as [-> H1%in_range_high]; [|done]. cbn.
    destruct (utf8.accept 128 191 r1) as [[d2 r2]|] eqn:E2; [|done].
    apply accept_spec in E2 as [-> H2%in_range_high]; [|done]. cbn.
    destruct (utf8.accept 128 191 r2) as [[d3 r3]|] eqn:E3; [|done].
    apply accept_spec in E3 as [-> H3%in_range_high]; [|done].
    intros [= <- <-]. cbn. by rewrite H1, H2, H3.
Qed.

Lemma rune_tail_spec c s tail rest :
  utf8.rune_tail c s = Some (tail, rest) →
  s = tail +:+ rest ∧ all_high tail = true.
Proof.
  unfold utf8.rune_tail. intros H.
  repeat match type of H with
  | (if ?b then _ else _) = _ => destruct b
  end; try done; (eapply tail_spec; [|eauto]; lia).
Qed.

Lemma separator_spec c tail esc x :
  json.separator c tail = Some esc →
  unescape Plain (esc +:+ x) = add_front (String c tail) <$> unescape Plain x.
Proof.
  unfold json.separator.
  destruct (N_of_ascii c =? 226)%N eqn:Ec; [|done].
  apply N.eqb_eq in Ec. apply (f_equal ascii_of_N) in Ec.
  rewrite ascii_N_embedding in Ec. subst c.
  destruct tail as [|d1 [|d2 [|]]]; try done.
  destruct (N_of_ascii d1 =? 128)%N eqn:E1; [|done].
  apply N.eqb_eq in E1. apply (f_equal ascii_of_N) in E1.
  rewrite ascii_N_embedding in E1. subst d1.
  destruct (N_of_ascii d2 =? 168)%N eqn:E2.
  { apply N.eqb_eq in E2. apply (f_equal ascii_of_N) in E2.
    rewrite ascii_N_embedding in E2. subst d2. intros [= <-].
    change (unescape Plain (String json.backslash "u2028" +:+ x))
      with ((onto "226" ∘ onto "128" ∘ onto "168")%char <$> unescape Plain x).
    by destruct (unescape Plain x) as [[]|]. }
  destruct (N_of_ascii d2 =? 169)%N eqn:E3; [|done].
  apply N.eqb_eq in E3. apply (f_equal ascii_of_N) in E3.
  rewrite ascii_N_embedding in E3. subst d2. intros [= <-].
  change (unescape Plain (String json.backslash "u2029" +:+ x))
    with ((onto "226" ∘ onto "128" ∘ onto "169")%char <$> unescape Plain x).
  by destruct (unescape Plain x) as [[]|].
Qed.

Lemma unescape_escape_fuel fuel s t :
  String.length s ≤ fuel →
  unescape Plain (json.escape_fuel fuel s +:+ String json.quote t)
  = if utf8.valid_fuel fuel s then Some (s, t) else None.
Proof.
  revert s t. induction fuel as [|fuel IH]; intros [|c s] t Hlen;
    try done; cbn in Hlen; [lia|].
  cbn [json.escape_fuel utf8.valid_fuel].
  destruct (N_of_ascii c <? 128)%N eqn:Ec.
  - rewrite <-text.app_assoc, unescape_escape_char, IH by (done || lia).
    by destruct (utf8.valid_fuel fuel s).
  - destruct (utf8.rune_tail c s) as [[tail rest]|] eqn:Et.
    + apply rune_tail_spec in Et as [-> Hhigh].
      rewrite text.length_app in Hlen.
      destruct (json.separator c tail) as [esc|] eqn:Es.
      * rewrite <-text.app_assoc, (separator_spec _ _ _ _ Es), IH by lia.
        by destruct (utf8.valid_fuel fuel rest).
      * rewrite text.app_cons, unescape_high, <-text.app_assoc by done.
        rewrite unescape_all_high, IH by (done || lia).
        by destruct (utf8.valid_fuel fuel rest).
    + by rewrite <-text.app_assoc, unescape_replacement.
Qed.

(** The fuel never runs out: any fuel from the length of the text on gives
    the same literal and the same verdict. *)
Lemma escape_fuel_enough fuel s :
  String.length s ≤ fuel → json.escape_fuel fuel s = json.escape s.
Proof.
  unfold json.escape.
  assert (∀ f1 f2 x, String.length x ≤ f1 → String.length x ≤ f2 →
            json.escape_fuel f1 x = json.escape_fuel f2 x) as H; [|by auto].
  induction f1 as [|f1 IH]; intros [|f2] [|c x] H1 H2;
    try done; cbn in H1, H2; try lia.
  cbn [json.escape_fuel]. destruct (N_of_ascii c <? 128)%N.
  - f_equal. apply IH; lia.
  - destruct (utf8.rune_tail c x) as [[tail rest]|] eqn:Et.
    + apply rune_tail_spec in Et as [-> _]. rewrite text.length_app in H1, H2.
      rewrite (IH f2 rest) by lia. done.
    + f_equal. apply IH; lia.
Qed.

Lemma valid_fuel_enough fuel s :
  String.length s ≤ fuel → utf8.valid_fuel fuel s = utf8.ValidString s.
Proof.
  unfold utf8.ValidString.
  assert (∀ f1 f2 x, String.length x ≤ f1 → String.length x ≤ f2 →
            utf8.valid_fuel f1 x = utf8.valid_fuel f2 x) as H; [|by auto].
  induction f1 as [|f1 IH]; intros [|f2] [|c x] H1 H2;
    try done; cbn in H1, H2; try lia.
  cbn [utf8.valid_fuel]. destruct (N_of_ascii c <? 128)%N.
  - apply IH; lia.
  - destruct (utf8.rune_tail c x) as [[tail rest]|] eqn:Et; [|done].
    apply rune_tail_spec in Et as [-> _]. rewrite text.length_app in H1, H2.
    apply IH; lia.
Qed.

Lemma string_literal_inj s s' :
  utf8.ValidString s = true →
  json.string_literal s' = json.string_literal s → s' = s.
Proof.
  unfold json.string_literal, json.escape, utf8.ValidString. intros Hs [= E].
  apply (f_equal (unescape Plain)) in E.
  rewrite !unescape_escape_fuel, Hs in E by done.
  destruct (utf8.valid_fuel _ s'); by simplify_eq.
Qed.

Lemma brackets_head s : json.brackets s = String "[" (s +:+ "]").
Proof. done. Qed.
Lemma braces_head s : json.braces s = String "{" (s +:+ "}").
Proof. done. Qed.

Lemma marshal_eq_string v s :
  utf8.ValidString s = true →
  json.marshal v = json.string_literal s → v = VString s.
Proof.
  intros Hs. destruct v as [|[]|n|s'|l|m|]; cbn [json.marshal];
    rewrite ?brackets_head, ?braces_head; try done.
  - destruct (verb_d_head n) as (c & r & -> & Hc). intros [= -> _].
    by destruct Hc.
  - by intros ->%string_literal_inj.
Qed.

Lemma marshal_eq_num v n :
  json.marshal v = fmt.verb_d n → v = VNum n.
Proof.
  destruct (verb_d_head n) as (c & r & E & Hc). rewrite E.
  destruct v as [|[]|n'|s'|l|m|]; cbn [json.marshal];
    rewrite ?brackets_head, ?braces_head; try done;
    try (intros [= <- _]; by destruct Hc).
  rewrite <-E. by intros ->%verb_d_inj.
Qed.

Lemma marshal_map_nonempty o : 0 < String.length (json.marshal_map o).
Proof. destruct o; cbn; [rewrite braces_head; cbn|]; lia. Qed.

(** ** Facts about marshalled objects and lists *)
Global Instance key_le_trans : Transitive json.key_le.
Proof. intros a b c. unfold json.key_le. apply transitivity. Qed.
Global Instance key_le_total : Total json.key_le.
Proof. intros a b. unfold json.key_le. apply total, _. Qed.

Lemma sorted_same_keys (l1 l2 : list (string * string)) :
  l1.*1 = l2.*1 → Sorted json.key_le l1 → Sorted json.key_le l2.
Proof.
  intros E H. 
  assert (∀ l : list (string * string), Sorted json.key_le l ↔ Sorted String.le (l.*1)) as K.
  { intros l. induction l as [|a l IH]; cbn; [split; constructor|].
    split; inversion 1 as [|?? Hs Hh]; subst; constructor; try (by apply IH).
    - destruct Hh; cbn; constructor. done.
    - destruct l; cbn in *; inversion Hh; subst; constructor. done. }
  apply K. rewrite <-E. by apply K.
Qed.

Lemma sorted_members_insert (M : gmap string string) k x y :
  M !! k = Some x →
  ∃ l1 l2,
    merge_sort json.key_le (map_to_list M) = l1 ++ (k, x) :: l2 ∧
    merge_sort json.key_le (map_to_list (<[k := y]> M)) = l1 ++ (k, y) :: l2.
Proof.
  intros Hk.
  set (L := merge_sort json.key_le (map_to_list M)).
  assert (L ≡ₚ map_to_list M) as HL by apply merge_sort_Permutation.
  assert ((k, x) ∈ L) as Hin by (rewrite HL; by apply elem_of_map_to_list).
  apply list_elem_of_split in Hin as (l1 & l2 & EL).
  exists l1, l2. split; [done|].
  assert (map_to_list M ≡ₚ (k, x) :: map_to_list (delete k M)) as HM.
  { rewrite <-(insert_delete_id M k x) at 1 by done.
    apply map_to_list_insert, lookup_delete_eq. }
  assert (l1 ++ l2 ≡ₚ map_to_list (delete k M)) as Hrest.
  { apply (Permutation_cons_inv (a := (k, x))).
    rewrite <-HM, <-HL, EL. by rewrite Permutation_middle. }
  assert (merge_sort json.key_le (map_to_list (<[k:=y]> M)) ≡ₚ l1 ++ (k, y) :: l2) as HP.
  { rewrite merge_sort_Permutation, <-insert_delete_eq.
    rewrite map_to_list_insert by apply lookup_delete_eq.
    by rewrite <-Hrest, Permutation_middle. }
  apply (Sorted_unique_strong json.key_le); [|apply Sorted_merge_sort, _| |done].
  - intros [k1 v1] [k2 v2] H1 H2 Hle1 Hle2.
    assert (k1 = k2) as <- by (by apply (anti_symm String.le)).
    rewrite <-HP in H2. rewrite merge_sort_Permutation in H1, H2.
    apply elem_of_map_to_list in H1, H2. congruence.
  - apply (sorted_same_keys L); [|apply Sorted_merge_sort, _].
    rewrite EL, !fmap_app. done.
Qed.

Lemma marshal_object_insert (m : gmap string value) k v v' :
  m !! k = Some v →
  ∃ p q, json.marshal (VObject m) = p +:+ json.marshal v +:+ q ∧
         json.marshal (VObject (<[k := v']> m)) = p +:+ json.marshal v' +:+ q.
Proof.
  intros Hk. cbn [json.marshal]. unfold json.members.
  rewrite fmap_insert.
  destruct (sorted_members_insert (json.marshal <$> m) k (json.marshal v) (json.marshal v'))
    as (l1 & l2 & -> & ->); [by rewrite lookup_fmap, Hk|].
  rewrite !fmap_app, !fmap_cons.
  destruct (text.concat_context "," (json.member <$> l1) (json.member <$> l2)) as (p & q & E).
  rewrite !E. unfold json.member, json.braces. cbn [fst snd].
  exists ("{" +:+ p +:+ json.string_literal k +:+ ":"), (q +:+ "}").
  by rewrite !text.app_assoc.
Qed.

Lemma array_text_insert (l : list jsmap) i o o' :
  l !! i = Some o →
  ∃ p q, json.array_text l = p +:+ json.marshal_map o +:+ q ∧
         json.array_text (<[i := o']> l) = p +:+ json.marshal_map o' +:+ q.
Proof.
  intros Hi. unfold json.array_text, json.brackets.
  assert (json.marshal_map <$> l = (json.marshal_map <$> take i l) ++
            json.marshal_map o :: (json.marshal_map <$> drop (S i) l)) as ->
    by (by rewrite <-fmap_cons, <-fmap_app, take_drop_middle).
  rewrite insert_take_drop by (by eapply lookup_lt_Some).
  rewrite !fmap_app, !fmap_cons.
  destruct (text.concat_context "," (json.marshal_map <$> take i l)
              (json.marshal_map <$> drop (S i) l)) as (p & q & E).
  rewrite !E. exists ("[" +:+ p), (q +:+ "]"). by rewrite !text.app_assoc.
Qed.

Lemma array_text_length (l : list jsmap) :
  String.length (json.array_text l) = 2 + (total_length "," (json.marshal_map <$> l) - 1).
Proof.
  unfold json.array_text. rewrite brackets_head. cbn [String.length].
  rewrite text.length_app, text.length_concat. cbn. lia.
Qed.

Lemma array_text_append (l : list jsmap) o : json.array_text (l ++ [o]) ≠ json.array_text l.
Proof.
  intros E%(f_equal String.length). rewrite !array_text_length in E.
  rewrite fmap_app, text.total_length_app, fmap_cons, text.total_length_cons in E.
  pose proof (marshal_map_nonempty o).
  change (String.length ",") with 1 in E. lia.
Qed.

Lemma array_text_delete (l : list jsmap) i :
  i < length l → json.array_text (delete i l) ≠ json.array_text l.
Proof.
  intros Hi E%(f_equal String.length). rewrite !array_text_length in E.
  destruct (lookup_lt_is_Some_2 l i Hi) as [o Ho].
  assert (json.marshal_map <$> l = (json.marshal_map <$> take i l) ++
            json.marshal_map o :: (json.marshal_map <$> drop (S i) l)) as El
    by (by rewrite <-fmap_cons, <-fmap_app, take_drop_middle).
  rewrite delete_take_drop, El in E.
  rewrite fmap_app, !text.total_length_app, text.total_length_cons in E.
  pose proof (marshal_map_nonempty o).
  change (String.length ",") with 1 in E. lia.
Qed.


Lemma array_text_nonempty (l : list jsmap) : json.array_text l ≠ "".
Proof. unfold json.array_text. by rewrite brackets_head. Qed.

Lemma array_text_replace (l : list jsmap) i o o' :
  l !! i = Some o →
  json.array_text (<[i := o']> l) = json.array_text l ↔
  json.marshal_map o' = json.marshal_map o.
Proof.
  intros Hi. destruct (array_text_insert l i o o' Hi) as (p & r & -> & ->).
  split; [apply text.context_inj|by intros ->].
Qed.

(** ** Facts about the error of [Marshal] *)

Lemma supported_object (m : gmap string value) :
  json.supported (VObject m) = true ↔
  ∀ k v, m !! k = Some v → json.supported v = true.
Proof.
  cbn [json.supported]. rewrite forallb_forall. split.
  - intros H k v Hk. apply (H (k, json.supported v)).
    apply list_elem_of_In, elem_of_map_to_list. by rewrite lookup_fmap, Hk.
  - intros H [k b] Hin%list_elem_of_In%elem_of_map_to_list.
    rewrite lookup_fmap in Hin. destruct (m !! k) as [v|] eqn:Hk; [|done].
    injection Hin as <-. cbn. eauto.
Qed.

Lemma supported_insert (m : gmap string value) k v :
  json.supported (VObject m) = true →
  json.supported (VObject (<[k := v]> m)) = json.supported v.
Proof.
  intros Hm. destruct (json.supported v) eqn:Hv.
  - apply supported_object. intros k' v'. rewrite lookup_insert.
    case_decide; [by intros [= <-]|]. by apply supported_object.
  - apply not_true_is_false. intros H.
    rewrite supported_object in H. specialize (H k v).
    rewrite lookup_insert_eq in H. by rewrite H in Hv.
Qed.

Lemma Marshal_Some (l : list jsmap) :
  is_Some (json.Marshal l) ↔ Forall (λ o, json.supported_map o = true) l.
Proof.
  unfold json.Marshal. rewrite Forall_forall.
  destruct (forallb json.supported_map l) eqn:E.
  - split; [|by eauto]. intros _ o Ho%list_elem_of_In.
    rewrite forallb_forall in E. by apply E.
  - split; [by intros [? [=]]|]. intros H.
    assert (forallb json.supported_map l = true) as E'; [|congruence].
    apply forallb_forall. intros o Ho%list_elem_of_In. by apply H.
Qed.

Lemma Marshal_supported (l : list jsmap) :
  Forall (λ o, json.supported_map o = true) l →
  json.Marshal l = Some (json.array_text l).
Proof.
  intros H%Marshal_Some. unfold json.Marshal in *.
  destruct (forallb json.supported_map l); [done|by destruct H].
Qed.

Lemma Marshal_unsupported (l : list jsmap) o :
  o ∈ l → json.supported_map o = false → json.Marshal l = None.
Proof.
  intros Ho Hs. destruct (json.Marshal l) eqn:E; [|done].
  assert (is_Some (json.Marshal l)) as H%Marshal_Some by eauto.
  rewrite Forall_forall in H. by rewrite (H o Ho) in Hs.
Qed.

Lemma printed_some (l : list jsmap) :
  is_Some (json.Marshal l) →
  fmt.verb_s (json.Marshal l) = json.array_text l.
Proof. intros H%Marshal_Some. by rewrite Marshal_supported. Qed.

Lemma printed_append (l : list jsmap) o :
  is_Some (json.Marshal l) →
  fmt.verb_s (json.Marshal (l ++ [o])) ≠ fmt.verb_s (json.Marshal l).
Proof.
  intros Hl. rewrite (printed_some l) by done.
  destruct (json.Marshal (l ++ [o])) as [t|] eqn:E.
  - rewrite <-E, printed_some by (rewrite E; eauto). apply array_text_append.
  - cbn. intros H. by apply (array_text_nonempty l).
Qed.

Lemma printed_delete (l : list jsmap) i :
  is_Some (json.Marshal l) → i < length l →
  fmt.verb_s (json.Marshal (delete i l)) ≠ fmt.verb_s (json.Marshal l).
Proof.
  intros Hl Hi. rewrite (printed_some l) by done.
  rewrite printed_some; [by apply array_text_delete|].
  apply Marshal_Some, Forall_delete. by apply Marshal_Some.
Qed.

Lemma encode_map_eq o o' :
  json.supported_map o = true →
  json.encode_map o' = json.encode_map o ↔
  json.supported_map o' = true ∧ json.marshal_map o' = json.marshal_map o.
Proof.
  unfold json.encode_map. intros ->.
  destruct (json.supported_map o'); split; try done.
  - by intros [= ->].
  - by intros [_ ->].
  - by intros [].
Qed.

Lemma printed_replace (l : list jsmap) i o o' :
  is_Some (json.Marshal l) → l !! i = Some o →
  fmt.verb_s (json.Marshal (<[i := o']> l)) = fmt.verb_s (json.Marshal l) ↔
  json.encode_map o' = json.encode_map o.
Proof.
  intros Hl Hi. rewrite (printed_some l) by done.
  pose proof Hl as Hall%Marshal_Some.
  assert (json.supported_map o = true) as Ho.
  { rewrite Forall_forall in Hall. apply Hall. by eapply list_elem_of_lookup_2. }
  rewrite encode_map_eq by done.
  destruct (json.supported_map o') eqn:Ho'.
  - rewrite printed_some.
    + rewrite (array_text_replace l i o o' Hi).
      split; [intros E; by split|by intros [_ E]].
    + apply Marshal_Some, Forall_insert; done.
  - rewrite (Marshal_unsupported _ o'); [|by eapply list_elem_of_lookup_2,
      list_lookup_insert_eq, lookup_lt_Some|done].
    cbn. split; [|by intros []]. intros H. by destruct (array_text_nonempty l).
Qed.

(** ** Facts about the loops and the methods *)

Lemma Logged_bind_eq {A B} (c : Logged A) (k : A → Logged B) :
  c ≫= k = ((k c.1).1, c.2 ++ (k c.1).2).
Proof. reflexivity. Qed.

Lemma Logged_ret_eq {A} (a : A) : (mret a : Logged A) = (a, []).
Proof. done. Qed.

Section loops.
Context {RR : Type} `{!RecordCodec RR}.

Lemma for_range_fill {A} (body : nat → A → list jsmap → Logged (list jsmap))
    (g : A → jsmap) (e : A → list string) (rest : list A) (filled : list jsmap) :
  (∀ x filled tail,
     body (length filled) x (filled ++ None :: tail) = (filled ++ g x :: tail, e x)) →
  for_range body (length filled) rest (filled ++ replicate (length rest) None)
  = (filled ++ (g <$> rest), rest ≫= e).
Proof.
  intros Hstep. revert filled. induction rest as [|x rest IH]; intros filled.
  - cbn. by rewrite Logged_ret_eq.
  - cbn [for_range length replicate fmap list_fmap].
    rewrite Logged_bind_eq, Hstep. cbn [fst snd].
    assert (∀ tl, filled ++ g x :: tl = (filled ++ [g x]) ++ tl) as Ea
      by (intros; by rewrite <-app_assoc).
    rewrite (Ea (replicate _ _)), (Ea (g <$> rest)).
    replace (S (length filled)) with (length (filled ++ [g x]))
      by (rewrite length_app; cbn; lia).
    by rewrite IH.
Qed.

Lemma records_to_js_eq (rrs : list RR) :
  records_to_js rrs = (slot <$> rrs, rrs ≫= failure ∘ NewJSResourceRecord).
Proof.
  unfold records_to_js.
  apply (for_range_fill _ slot (failure ∘ NewJSResourceRecord) rrs []).
  intros rr filled tail. unfold slot, compose, failure.
  destruct (NewJSResourceRecord rr) as [js|err].
  - by rewrite Logged_ret_eq, insert_app_r_alt, Nat.sub_diag by lia.
  - by rewrite Logged_bind_eq.
Qed.

Lemma bind_nil {A B} (l : list A) : l ≫= (λ _, @nil B) = [].
Proof. induction l as [|x l IH]; [done|]. by rewrite bind_cons, IH. Qed.

Lemma questions_to_js_eq (qs : list dns.Question) :
  questions_to_js qs = (question_to_js <$> qs, []).
Proof.
  unfold questions_to_js.
  rewrite (for_range_fill _ question_to_js (λ _, []) qs []).
  - by rewrite bind_nil.
  - intros q filled tail. generalize (question_to_js q). intros o.
    by rewrite Logged_ret_eq, insert_app_r_alt, Nat.sub_diag by lia.
Qed.

Lemma for_range_append {A B} (body : nat → A → list B → Logged (list B))
    (g : A → list B) (e : A → list string) (l : list A) (i : nat) (acc : list B) :
  (∀ i x acc, body i x acc = (acc ++ g x, e x)) →
  for_range body i l acc = (acc ++ (l ≫= g), l ≫= e).
Proof.
  intros Hstep. revert i acc. induction l as [|x l IH]; intros i acc.
  - cbn [for_range]. by rewrite Logged_ret_eq, app_nil_r.
  - cbn [for_range]. rewrite Logged_bind_eq, Hstep. cbn [fst snd].
    rewrite IH, !bind_cons, <-app_assoc. reflexivity.
Qed.

Lemma js_to_records_eq (l : list jsmap) :
  js_to_records l = (l ≫= survivor ∘ ToRR, l ≫= failure ∘ ToRR).
Proof.
  unfold js_to_records. rewrite (for_range_append _ (survivor ∘ ToRR) (failure ∘ ToRR)); [done|].
  intros _ js acc. unfold compose, survivor, failure. destruct (ToRR js).
  - done.
  - rewrite Logged_bind_eq, (app_nil_r acc). reflexivity.
Qed.

Lemma bind_singleton {A B} (f : A → B) (l : list A) : l ≫= (λ x, [f x]) = f <$> l.
Proof. induction l as [|x l IH]; [done|]. by rewrite bind_cons, IH. Qed.

Lemma js_to_questions_eq (l : list jsmap) :
  js_to_questions l = (js_to_question <$> l, []).
Proof.
  unfold js_to_questions.
  rewrite (for_range_append _ (λ q, [js_to_question q]) (λ _, [])); [|done].
  by rewrite bind_singleton, bind_nil.
Qed.

End loops.

Lemma NewHash_eq j : NewHash j = (returned NewHash j, j, []).
Proof. reflexivity. Qed.

Lemma NewHash_returned j : returned NewHash j = fingerprint j.
Proof. reflexivity. Qed.

Lemma fingerprint_set_refHash h j : fingerprint (set_refHash h j) = fingerprint j.
Proof. reflexivity. Qed.

Lemma UpdateHash_eq j : UpdateHash j = (tt, set_refHash (fingerprint j) j, []).
Proof. reflexivity. Qed.

Lemma WasModified_eq j :
  WasModified j = (negb (String.eqb (fingerprint j) (refHash j)), j, []).
Proof. reflexivity. Qed.

Lemma WasModified_true j :
  returned WasModified j = true ↔ fingerprint j ≠ refHash j.
Proof.
  unfold returned. rewrite WasModified_eq. cbn [fst].
  rewrite negb_true_iff. apply String.eqb_neq.
Qed.

Lemma WasModified_false j :
  returned WasModified j = false ↔ fingerprint j = refHash j.
Proof.
  unfold returned. rewrite WasModified_eq. cbn [fst].
  rewrite negb_false_iff. apply String.eqb_eq.
Qed.

Lemma Method_bind_run {A B} (c : Method A) (k : A → Method B) j a j' l b j'' l' :
  c j = (a, j', l) → k a j' = (b, j'', l') → (c ≫= k) j = (b, j'', l ++ l').
Proof.
  intros Hc Hk. unfold mbind at 1, Method_bind. rewrite Logged_bind_eq, Hc.
  cbn [fst snd]. by rewrite Hk.
Qed.

Lemma field_run {A} (f : JSQuery → A) j : field f j = (f j, j, []).
Proof. reflexivity. Qed.

Lemma convert_run {A B} (f : JSQuery → A) (g : A → Logged B) j :
  (field f ≫= logging ∘ g) j = ((g (f j)).1, j, (g (f j)).2).
Proof.
  erewrite Method_bind_run; [|apply field_run|reflexivity].
  cbn [app]. by rewrite app_nil_r.
Qed.

Section bridge_facts.
Context {RR : Type} `{!RecordCodec RR} `{!Lan}.

Lemma NewJSQuery_eq (query : dns.Msg RR) ip :
  ∃ b : JSQuery,
    NewJSQuery query ip =
      (set_refHash (fingerprint b) b,
       (dns.Answer query ≫= failure ∘ NewJSResourceRecord) ++
       (dns.Extra query ≫= failure ∘ NewJSResourceRecord) ++
       (dns.Ns query ≫= failure ∘ NewJSResourceRecord)) ∧
    Answers b = slot <$> dns.Answer query ∧
    Extras b = slot <$> dns.Extra query ∧
    Nameservers b = slot <$> dns.Ns query ∧
    Questions b = question_to_js <$> dns.Question_ query ∧
    Compress b = dns.Compress query ∧
    Client b !! "IP" = Some ip ∧
    Client b !! "MAC" = Some (from_option HwAddress "" (GetByIp ip)) ∧
    Client b !! "Alias" = Some (from_option Alias "" (GetByIp ip)) ∧
    dom (Client b) = {["IP"; "MAC"; "Alias"]} ∧
    Header b = {|
      AuthenticatedData := dns.AuthenticatedData (dns.Hdr query);
      Authoritative := dns.Authoritative (dns.Hdr query);
      CheckingDisabled := dns.CheckingDisabled (dns.Hdr query);
      Id := dns.Id (dns.Hdr query);
      Opcode := dns.Opcode (dns.Hdr query);
      Rcode := dns.Rcode (dns.Hdr query);
      RecursionAvailable := dns.RecursionAvailable (dns.Hdr query);
      RecursionDesired := dns.RecursionDesired (dns.Hdr query);
      Response := dns.Response (dns.Hdr query);
      Truncated := dns.Truncated (dns.Hdr query);
      Zero := dns.Zero (dns.Hdr query) |}.
Proof.
  unfold NewJSQuery. rewrite !records_to_js_eq, questions_to_js_eq.
  destruct (GetByIp ip) as [endpoint|]; cbv beta iota zeta;
    do 4 (rewrite Logged_bind_eq; cbn [fst snd]);
    rewrite UpdateHash_eq, Logged_bind_eq, Logged_ret_eq; cbn [fst snd];
    rewrite !app_nil_r;
    (eexists; split; [reflexivity|];
     cbn [Answers Extras Nameservers Questions Compress Client Header from_option];
     split_and!; reflexivity).
Qed.

Lemma ToQuery_eq (j : JSQuery) :
  ToQuery j =
    ({| dns.Hdr := {|
          dns.Id := Id (Header j);
          dns.Response := Response (Header j);
          dns.Opcode := Opcode (Header j);
          dns.Authoritative := Authoritative (Header j);
          dns.Truncated := Truncated (Header j);
          dns.RecursionDesired := RecursionDesired (Header j);
          dns.RecursionAvailable := RecursionAvailable (Header j);
          dns.Zero := Zero (Header j);
          dns.AuthenticatedData := AuthenticatedData (Header j);
          dns.CheckingDisabled := CheckingDisabled (Header j);
          dns.Rcode := Rcode (Header j) |};
        dns.Compress := Compress j;
        dns.Question_ := js_to_question <$> Questions j;
        dns.Answer := Answers j ≫= survivor ∘ ToRR;
        dns.Ns := Nameservers j ≫= survivor ∘ ToRR;
        dns.Extra := Extras j ≫= survivor ∘ ToRR |},
     j,
     (Answers j ≫= failure ∘ ToRR) ++ (Extras j ≫= failure ∘ ToRR) ++
     (Nameservers j ≫= failure ∘ ToRR)).
Proof.
  unfold ToQuery. etrans.
  { repeat (eapply Method_bind_run; [first [apply convert_run | apply field_run]|];
            cbv beta).
    reflexivity. }
  rewrite !js_to_records_eq, js_to_questions_eq. cbn [fst snd app].
  by rewrite !app_nil_r.
Qed.

End bridge_facts.

(** Which component of the fingerprint an edit reaches. *)
Lemma fingerprint_Answers x j :
  fingerprint (set_Answers x j) = fingerprint j →
  fmt.verb_s (json.Marshal x) = fmt.verb_s (json.Marshal (Answers j)).
Proof. apply (text.concat_replace "." []). Qed.

Lemma fingerprint_Extras x j :
  fingerprint (set_Extras x j) = fingerprint j →
  fmt.verb_s (json.Marshal x) = fmt.verb_s (json.Marshal (Extras j)).
Proof.
  apply (text.concat_replace "."
    [fmt.verb_s (json.Marshal (Answers j)); client_ip (Client j);
     fmt.verb_t (Compress j)]).
Qed.

Lemma fingerprint_Header x j :
  fingerprint (set_Header x j) = fingerprint j → x = Header j.
Proof.
  intros E. apply headerHash_inj. revert E.
  apply (text.concat_replace "."
    [fmt.verb_s (json.Marshal (Answers j)); client_ip (Client j);
     fmt.verb_t (Compress j); fmt.verb_s (json.Marshal (Extras j))]).
Qed.

Lemma fingerprint_Nameservers x j :
  fingerprint (set_Nameservers x j) = fingerprint j →
  fmt.verb_s (json.Marshal x) = fmt.verb_s (json.Marshal (Nameservers j)).
Proof.
  apply (text.concat_replace "."
    [fmt.verb_s (json.Marshal (Answers j)); client_ip (Client j);
     fmt.verb_t (Compress j); fmt.verb_s (json.Marshal (Extras j));
     headerHash (Header j)]).
Qed.

Lemma fingerprint_Questions x j :
  fingerprint (set_Questions x j) = fingerprint j →
  fmt.verb_s (json.Marshal x) = fmt.verb_s (json.Marshal (Questions j)).
Proof.
  apply (text.concat_replace "."
    [fmt.verb_s (json.Marshal (Answers j)); client_ip (Client j);
     fmt.verb_t (Compress j); fmt.verb_s (json.Marshal (Extras j));
     headerHash (Header j); fmt.verb_s (json.Marshal (Nameservers j))] []).
Qed.

Lemma question_edit_detected (l : list jsmap) i q key v v' :
  is_Some (json.Marshal l) →
  l !! i = Some (Some q) → q !! key = Some v →
  (∃ s, v = VString s ∧ utf8.ValidString s = true) ∨ (∃ n, v = VNum n) →
  v' ≠ v →
  fmt.verb_s (json.Marshal (<[i := Some (<[key := v']> q)]> l))
  ≠ fmt.verb_s (json.Marshal l).
Proof.
  intros Hl Hi Hk Hv Hne E.
  apply (printed_replace l i (Some q) _ Hl Hi) in E.
  assert (json.supported_map (Some q) = true) as Hq.
  { apply Marshal_Some in Hl. rewrite Forall_forall in Hl. apply Hl.
    by eapply list_elem_of_lookup_2. }
  apply encode_map_eq in E as [_ E]; [|done]. cbn [json.marshal_map] in E.
  destruct (marshal_object_insert q key v v' Hk) as (p' & r' & E3 & E4).
  rewrite E3, E4 in E. apply text.context_inj in E.
  destruct Hv as [(s & -> & Hs)|[n ->]].
  - by apply marshal_eq_string in E.
  - by apply marshal_eq_num in E.
Qed.

Lemma supported_question (dq : dns.Question) :
  json.supported_map (question_to_js dq) = true.
Proof.
  apply supported_object. intros k v.
  rewrite !lookup_insert, lookup_empty. repeat case_decide; by intros [= <-].
Qed.

Lemma Marshal_questions (qs : list dns.Question) :
  is_Some (json.Marshal (question_to_js <$> qs)).
Proof.
  apply Marshal_Some, Forall_fmap, Forall_forall. intros dq _.
  apply supported_question.
Qed.

Lemma question_to_js_lookup (dq : dns.Question) q key v :
  question_to_js dq = Some q → q !! key = Some v →
  (∃ s, v = VString s) ∨ (∃ n, v = VNum n).
Proof.
  intros [= <-]. rewrite !lookup_insert, lookup_empty.
  repeat case_decide; intros [= <-]; eauto.
Qed.



Section codec_facts.
Context {RR : Type} `{!RecordCodec RR}.



Lemma survivors_all_ok (l : list jsmap) :
  Forall (λ js, ∃ rr, ToRR js = Ok rr) l →
  Forall2 (λ js rr, ToRR js = Ok rr) l (l ≫= survivor ∘ ToRR) ∧
  l ≫= failure ∘ ToRR = [].
Proof.
  induction 1 as [|js l [rr Hrr] _ [IH1 IH2]]; [by split; [constructor|]|].
  rewrite !bind_cons, IH2. unfold compose at 1 3. rewrite Hrr. cbn.
  split; [by constructor|done].
Qed.

End codec_facts.

Lemma fresh_refHash {RR : Type} `{!RecordCodec RR} `{!Lan}
    (query : dns.Msg RR) (clientIP : string) :
  refHash (NewJSQuery query clientIP).1 = fingerprint (NewJSQuery query clientIP).1.
Proof.
  destruct (NewJSQuery_eq query clientIP) as (b & E & _). rewrite E. cbn [fst].
  change (fingerprint b = fingerprint (set_refHash (fingerprint b) b)).
  by rewrite fingerprint_set_refHash.
Qed.

Lemma fresh_Questions {RR : Type} `{!RecordCodec RR} `{!Lan}
    (query : dns.Msg RR) (clientIP : string) :
  ∃ qs, Questions (NewJSQuery query clientIP).1 = question_to_js <$> qs.
Proof.
  destruct (NewJSQuery_eq query clientIP) as (b & E & _ & _ & _ & HQ & _).
  rewrite E. cbn [fst Questions set_refHash]. eauto.
Qed.

(** * The claims of the specification *)

(** C7.  [NewJSQuery] ends with [UpdateHash]: the query it returns carries
    its own fingerprint in [refHash], so [WasModified] answers false before
    any edit, for every message and client address. *)
Theorem fresh_query_unmodified {RR : Type} `{!RecordCodec RR} `{!Lan}
    (query : dns.Msg RR) (clientIP : string) :
  let j := (NewJSQuery query clientIP).1 in
  refHash j = returned NewHash j ∧ returned WasModified j = false.
Proof.
  destruct (NewJSQuery_eq query clientIP) as (b & E & _). cbv zeta.
  rewrite E. cbn [fst]. split.
  - change (fingerprint b = fingerprint (set_refHash (fingerprint b) b)).
    by rewrite fingerprint_set_refHash.
  - apply WasModified_false. by rewrite fingerprint_set_refHash.
Qed.

(** C8.  [WasModified] answers true exactly when the fingerprint computed now
    differs from [refHash]; it leaves the receiver as it found it, logs
    nothing, and so gives the same answer however often it is called. *)
Theorem WasModified_pure (j : JSQuery) :
  (returned WasModified j = true ↔ returned NewHash j ≠ refHash j) ∧
  receiver_after WasModified j = j ∧
  logged_by WasModified j = [] ∧
  ∀ n : nat,
    Nat.iter n (receiver_after WasModified) j = j ∧
    returned WasModified (Nat.iter n (receiver_after WasModified) j)
      = returned WasModified j.
Proof.
  split_and!; [apply WasModified_true|done..|].
  intros n. assert (Nat.iter n (receiver_after WasModified) j = j) as ->; [|done].
  induction n as [|n IH]; [done|]. by rewrite Nat.iter_succ, IH.
Qed.

(** C9.  Of the client mapping only the entry under ["IP"] reaches the
    fingerprint: writing or deleting any other key changes neither [NewHash]
    nor the answer of [WasModified]. *)
Theorem fingerprint_reads_client_ip_only (j : JSQuery) (key val : string) :
  key ≠ "IP" →
  let written := set_Client (<[key := val]> (Client j)) j in
  let deleted := set_Client (delete key (Client j)) j in
  returned NewHash written = returned NewHash j ∧
  returned WasModified written = returned WasModified j ∧
  returned NewHash deleted = returned NewHash j ∧
  returned WasModified deleted = returned WasModified j.
Proof.
  intros Hkey written deleted.
  assert (fingerprint written = fingerprint j) as Ew.
  { unfold fingerprint, written, client_ip. cbn [Answers Client Compress Extras
      Header Nameservers Questions set_Client]. by rewrite lookup_insert_ne. }
  assert (fingerprint deleted = fingerprint j) as Ed.
  { unfold fingerprint, deleted, client_ip. cbn [Answers Client Compress Extras
      Header Nameservers Questions set_Client]. by rewrite lookup_delete_ne. }
  unfold returned. rewrite !WasModified_eq, !NewHash_eq. cbn [fst].
  rewrite !NewHash_returned, Ew, Ed. done.
Qed.

Lemma fingerprint_reads_client_ip_only_witness :
  let j := (NewJSQuery example.query "10.0.0.7").1 in
  returned NewHash (set_Client (<["MAC" := "00:00:00:00:00:00"]> (Client j)) j)
    = returned NewHash j.
Proof.
  intros j.
  exact (proj1 (fingerprint_reads_client_ip_only j "MAC" "00:00:00:00:00:00"
                  ltac:(discriminate))).
Defined.

(** C10.  [ToQuery] reads the receiver and never writes it: every field and
    [refHash] are the same after the call, and so is the answer of
    [WasModified]. *)
Theorem ToQuery_leaves_receiver {RR : Type} `{!RecordCodec RR} (j : JSQuery) :
  receiver_after (ToQuery (RR := RR)) j = j ∧
  returned WasModified (receiver_after (ToQuery (RR := RR)) j)
    = returned WasModified j.
Proof.
  assert (receiver_after (ToQuery (RR := RR)) j = j) as E
    by (unfold receiver_after; by rewrite ToQuery_eq).
  by rewrite E.
Qed.

(** C4.  Two representations that agree on the answers, the extras, the
    name servers, the questions, the client address, the compression flag
    and the header have the same fingerprint; in particular two runs of
    [NewJSQuery] on the same message and address have, whatever the address
    book holds at each run. *)
Theorem fingerprint_deterministic {RR : Type} `{!RecordCodec RR} :
  (∀ j1 j2 : JSQuery,
     Answers j1 = Answers j2 → Extras j1 = Extras j2 →
     Nameservers j1 = Nameservers j2 → Questions j1 = Questions j2 →
     Client j1 !! "IP" = Client j2 !! "IP" → Compress j1 = Compress j2 →
     Header j1 = Header j2 →
     returned NewHash j1 = returned NewHash j2) ∧
  (∀ (lan1 lan2 : Lan) (query : dns.Msg RR) (clientIP : string),
     returned NewHash (NewJSQuery (H := lan1) query clientIP).1
     = returned NewHash (NewJSQuery (H := lan2) query clientIP).1).
Proof.
  assert (∀ j1 j2 : JSQuery,
     Answers j1 = Answers j2 → Extras j1 = Extras j2 →
     Nameservers j1 = Nameservers j2 → Questions j1 = Questions j2 →
     Client j1 !! "IP" = Client j2 !! "IP" → Compress j1 = Compress j2 →
     Header j1 = Header j2 →
     returned NewHash j1 = returned NewHash j2) as Hgen.
  { intros j1 j2 HA HE HN HQ HI HC HH. rewrite !NewHash_returned.
    unfold fingerprint, client_ip. by rewrite HA, HE, HN, HQ, HI, HC, HH. }
  split; [exact Hgen|]. intros lan1 lan2 query ip.
  destruct (NewJSQuery_eq (H := lan1) query ip)
    as (b1 & E1 & A1 & X1 & N1 & Q1 & C1 & I1 & _ & _ & _ & H1).
  destruct (NewJSQuery_eq (H := lan2) query ip)
    as (b2 & E2 & A2 & X2 & N2 & Q2 & C2 & I2 & _ & _ & _ & H2).
  rewrite E1, E2. cbn [fst]. apply Hgen; cbn [Answers Extras Nameservers
    Questions Client Compress Header set_refHash]; congruence.
Qed.

Lemma fingerprint_deterministic_witness :
  returned NewHash (NewJSQuery example.query "10.0.0.7").1
  = returned NewHash
      (set_refHash "stale" (NewJSQuery example.query "10.0.0.7").1).
Proof.
  exact (proj1 (fingerprint_deterministic (RR := example.rr))
           (NewJSQuery example.query "10.0.0.7").1
           (set_refHash "stale" (NewJSQuery example.query "10.0.0.7").1)
           eq_refl eq_refl eq_refl eq_refl eq_refl eq_refl eq_refl).
Defined.



(** C2, as the code has it.  [NewJSQuery] allocates one slot per record and
    fills the slots of the records the codec encodes: a record the codec
    refuses has its error logged, and keeps its slot, which holds the [nil]
    mapping.  The three lists have the lengths of the lists of the message. *)
Theorem NewJSQuery_keeps_refused_slots {RR : Type} `{!RecordCodec RR} `{!Lan}
    (query : dns.Msg RR) (clientIP : string) (i : nat) (rr : RR) (err : string) :
  NewJSResourceRecord rr = Err err →
  let j := (NewJSQuery query clientIP).1 in
  (length (Answers j) = length (dns.Answer query) ∧
   length (Extras j) = length (dns.Extra query) ∧
   length (Nameservers j) = length (dns.Ns query)) ∧
  (dns.Answer query !! i = Some rr →
     Answers j !! i = Some None ∧ err ∈ (NewJSQuery query clientIP).2) ∧
  (dns.Extra query !! i = Some rr →
     Extras j !! i = Some None ∧ err ∈ (NewJSQuery query clientIP).2) ∧
  (dns.Ns query !! i = Some rr →
     Nameservers j !! i = Some None ∧ err ∈ (NewJSQuery query clientIP).2).
Proof.
  intros Herr j. subst j.
  destruct (NewJSQuery_eq query clientIP) as (b & E & HA & HE & HN & _).
  rewrite E.
  cbn [fst snd Answers Extras Nameservers set_refHash].
  rewrite HA, HE, HN, !length_fmap, !list_lookup_fmap.
  assert (slot rr = None) as Hslot by (unfold slot; by rewrite Herr).
  assert (∀ rrs : list RR, rrs !! i = Some rr →
            err ∈ rrs ≫= failure ∘ NewJSResourceRecord) as Hlog.
  { intros rrs Hi. apply list_elem_of_bind. exists rr.
    split; [|by eapply list_elem_of_lookup_2].
    unfold compose. rewrite Herr. by apply list_elem_of_singleton. }
  split_and!; [done..| | |]; intros Hi; rewrite Hi; cbn [fmap option_fmap option_map];
    rewrite Hslot, !elem_of_app; auto.
Qed.

Lemma NewJSQuery_keeps_refused_slots_witness :
  let j := (NewJSQuery example.partial "10.0.0.7").1 in
  length (Answers j) = 2 ∧ Answers j !! 0 = Some None.
Proof.
  intros j.
  pose proof (NewJSQuery_keeps_refused_slots example.partial "10.0.0.7" 0
                (example.Other 99) "unknown type" eq_refl) as (Hlen & Hans & _).
  split; [exact (proj1 Hlen)|exact (proj1 (Hans eq_refl))].
Defined.

(** C5.  When the codec refuses exactly one mapping of [Answers], [ToQuery]
    returns the records of the others, in their order, one fewer than the
    mappings; the loop over the answers logs that one error; the rest of the
    message is what [ToQuery] builds without the refused mapping. *)
Theorem ToQuery_isolates_failure {RR : Type} `{!RecordCodec RR}
    (j : JSQuery) (before after : list jsmap) (bad : jsmap) (err : string) :
  Answers j = before ++ bad :: after →
  ToRR bad = Err err →
  Forall (λ js, ∃ rr : RR, ToRR js = Ok rr) (before ++ after) →
  let msg := returned ToQuery j in
  let j' := set_Answers (before ++ after) j in
  length (dns.Answer msg) = (length (Answers j) - 1)%nat ∧
  Forall2 (λ js rr, ToRR js = Ok rr) (before ++ after) (dns.Answer msg) ∧
  (js_to_records (RR := RR) (Answers j)).2 = [err] ∧
  logged_by (ToQuery (RR := RR)) j
    = err :: (js_to_records (RR := RR) (Extras j)).2
          ++ (js_to_records (RR := RR) (Nameservers j)).2 ∧
  msg = returned ToQuery j' ∧
  dns.Extra msg = (js_to_records (Extras j)).1 ∧
  dns.Ns msg = (js_to_records (Nameservers j)).1 ∧
  dns.Question_ msg = js_to_question <$> Questions j.
Proof.
  intros HA Hbad Hok msg j'. subst msg j'.
  unfold returned, logged_by. rewrite !ToQuery_eq, !js_to_records_eq.
  cbn [fst snd Answers Extras Nameservers Questions Compress Header set_Answers].
  rewrite HA.
  assert ((before ++ bad :: after) ≫= survivor ∘ ToRR
          = (before ++ after) ≫= survivor ∘ ToRR) as Es.
  { rewrite !bind_app, bind_cons. unfold compose at 2. by rewrite Hbad. }
  assert ((before ++ bad :: after) ≫= failure ∘ ToRR = [err]) as Ef.
  { apply Forall_app in Hok as [Hb Ha].
    rewrite bind_app, bind_cons.
    rewrite (proj2 (survivors_all_ok _ Hb)), (proj2 (survivors_all_ok _ Ha)).
    unfold compose. by rewrite Hbad. }
  destruct (survivors_all_ok _ Hok) as [Hall _].
  rewrite Es, Ef. cbn [dns.Answer dns.Extra dns.Ns dns.Question_].
  split_and!; try done.
  rewrite <-(Forall2_length _ _ _ Hall), !length_app. cbn. lia.
Qed.

Lemma ToQuery_isolates_failure_witness :
  let j := (NewJSQuery example.partial "10.0.0.7").1 in
  length (dns.Answer (returned ToQuery j)) = 1%nat ∧
  logged_by (ToQuery (RR := example.rr)) j = ["bad record"].
Proof.
  intros j.
  pose proof (ToQuery_isolates_failure (RR := example.rr) j [] [slot example.rr1]
                None "bad record" eq_refl eq_refl
                ltac:(repeat constructor; eexists; vm_compute; reflexivity))
    as (Hlen & _ & _ & Hlog & _).
  split; [exact Hlen|exact Hlog].
Defined.

(** C6.  [ToQuery] rebuilds one question per mapping and logs nothing for
    them.  A mapping without a number under ["Qtype"] gives [Qtype] zero,
    likewise for ["Qclass"]; one without a string under ["Name"] gives the
    empty name. *)
Theorem ToQuery_tolerates_bad_questions {RR : Type} `{!RecordCodec RR}
    (j : JSQuery) :
  let msg := returned (ToQuery (RR := RR)) j in
  length (dns.Question_ msg) = length (Questions j) ∧
  (js_to_questions (Questions j)).2 = [] ∧
  ∀ (i : nat) (jsQ : jsmap), Questions j !! i = Some jsQ →
    ∃ q, dns.Question_ msg !! i = Some q ∧
      ((∀ n, prop jsQ "Qtype" ≠ Some (VNum n)) → dns.Qtype q = 0%Z) ∧
      ((∀ n, prop jsQ "Qclass" ≠ Some (VNum n)) → dns.Qclass q = 0%Z) ∧
      ((∀ s, prop jsQ "Name" ≠ Some (VString s)) → dns.Name q = "").
Proof.
  intros msg. subst msg. unfold returned. rewrite ToQuery_eq, js_to_questions_eq.
  cbn [fst snd dns.Question_]. rewrite length_fmap. split_and!; [done..|].
  intros i jsQ Hi. exists (js_to_question jsQ).
  rewrite list_lookup_fmap, Hi. split; [done|].
  unfold js_to_question, jsPropToUint16, jsPropToString.
  cbn [dns.Name dns.Qtype dns.Qclass].
  split_and!; intros Hno.
  - destruct (prop jsQ "Qtype") as [[]|]; try done. by destruct (Hno n).
  - destruct (prop jsQ "Qclass") as [[]|]; try done. by destruct (Hno n).
  - destruct (prop jsQ "Name") as [[]|]; try done. by destruct (Hno s).
Qed.

Lemma ToQuery_tolerates_bad_questions_witness :
  let j := set_Questions
             [Some (<["Name" := VNum 7]> (<["Qtype" := VString "A"]> ∅))]
             (NewJSQuery example.query "10.0.0.7").1 in
  ∃ q, dns.Question_ (returned (ToQuery (RR := example.rr)) j) !! 0%nat = Some q ∧
       dns.Qtype q = 0%Z ∧ dns.Qclass q = 0%Z ∧ dns.Name q = "".
Proof.
  intros j.
  destruct (proj2 (proj2 (ToQuery_tolerates_bad_questions (RR := example.rr) j))
              0%nat _ eq_refl) as (q & Hlook & Ht & Hc & Hn).
  exists q. split; [exact Hlook|].
  split; [|split]; [apply Ht|apply Hc|apply Hn]; intros x; vm_compute; discriminate.
Defined.

(** C3, amended.  On a freshly built query [WasModified] answers true after
    any one of these edits: giving the header another value (so, changing
    any one of its flags or fields); giving an entry of a question mapping
    another value, provided that, when the entry holds a string (the name),
    the string is well-formed UTF-8; appending a mapping to [Answers],
    [Extras] or [Nameservers], or removing one from them, provided
    [json.Marshal] accepts the list as it was built. *)
Theorem fingerprint_sensitivity {RR : Type} `{!RecordCodec RR} `{!Lan}
    (query : dns.Msg RR) (clientIP : string) :
  let j := (NewJSQuery query clientIP).1 in
  (∀ header, header ≠ Header j →
     returned WasModified (set_Header header j) = true) ∧
  (∀ (i : nat) (q : gmap string value) (key : string) (v v' : value),
     Questions j !! i = Some (Some q) → q !! key = Some v → v' ≠ v →
     (∀ s, v = VString s → utf8.ValidString s = true) →
     returned WasModified
       (set_Questions (<[i := Some (<[key := v']> q)]> (Questions j)) j) = true) ∧
  (∀ r : jsmap,
     (is_Some (json.Marshal (Answers j)) →
        returned WasModified (set_Answers (Answers j ++ [r]) j) = true) ∧
     (is_Some (json.Marshal (Extras j)) →
        returned WasModified (set_Extras (Extras j ++ [r]) j) = true) ∧
     (is_Some (json.Marshal (Nameservers j)) →
        returned WasModified
          (set_Nameservers (Nameservers j ++ [r]) j) = true)) ∧
  (∀ i : nat,
     (is_Some (json.Marshal (Answers j)) → i < length (Answers j) →
        returned WasModified (set_Answers (delete i (Answers j)) j) = true) ∧
     (is_Some (json.Marshal (Extras j)) → i < length (Extras j) →
        returned WasModified (set_Extras (delete i (Extras j)) j) = true) ∧
     (is_Some (json.Marshal (Nameservers j)) → i < length (Nameservers j) →
        returned WasModified
          (set_Nameservers (delete i (Nameservers j)) j) = true)).
Proof.
  intros j.
  assert (refHash j = fingerprint j) as Href
    by apply (fresh_refHash query clientIP).
  assert (∀ j', refHash j' = refHash j → fingerprint j' ≠ fingerprint j →
            returned WasModified j' = true) as Hmod.
  { intros j' Hr Hf. apply WasModified_true. by rewrite Hr, Href. }
  split_and!.
  - intros header Hne. apply Hmod; [done|].
    by intros E%fingerprint_Header.
  - intros i q key v v' Hi Hk Hne Hvalid. apply Hmod; [done|].
    intros E%fingerprint_Questions. revert E.
    destruct (fresh_Questions query clientIP) as [qs Hqs]. fold j in Hqs.
    apply (question_edit_detected _ _ _ _ v); [|done..| |done].
    { rewrite Hqs. apply Marshal_questions. }
    rewrite Hqs, list_lookup_fmap in Hi.
    destruct (qs !! i) as [dq|] eqn:Hdq; [|done]. injection Hi as Hi.
    destruct (question_to_js_lookup dq q key v (f_equal Some Hi) Hk)
      as [[s ->]|[n ->]]; eauto.
  - intros r. split_and!; intros Hl; apply Hmod; try done.
    + intros E%fingerprint_Answers. by apply printed_append in E.
    + intros E%fingerprint_Extras. by apply printed_append in E.
    + intros E%fingerprint_Nameservers. by apply printed_append in E.
  - intros i. split_and!; intros Hl Hi; apply Hmod; try done.
    + intros E%fingerprint_Answers. by apply printed_delete in E.
    + intros E%fingerprint_Extras. by apply printed_delete in E.
    + intros E%fingerprint_Nameservers. by apply printed_delete in E.
Qed.

Lemma fingerprint_sensitivity_witness :
  let j := (NewJSQuery example.response "10.0.0.7").1 in
  returned WasModified
    (set_Questions
       (<[0%nat := Some (<["Name" := VString "example.org."]>
                          (default ∅ (question_to_js example.question)))]>
          (Questions j)) j) = true ∧
  returned WasModified (set_Answers (Answers j ++ [None]) j) = true.
Proof.
  intros j.
  pose proof (fingerprint_sensitivity example.response "10.0.0.7")
    as (_ & Hquestion & Happend & _).
  split.
  - refine (Hquestion 0%nat _ "Name" (VString "example.com.")
              (VString "example.org.") _ _ _ _).
    + reflexivity.
    + vm_compute. reflexivity.
    + discriminate.
    + intros s [= <-]. vm_compute. reflexivity.
  - refine (proj1 (Happend None) _). vm_compute. eexists. reflexivity.
Defined.

(** C3 as the specification states it fails on a name that is not well-formed
    UTF-8.  [json.Marshal] writes the same replacement for every byte that
    starts no well-formed character, so the question named by the single
    byte 0xFF and the question named by the single byte 0xFE have the same
    text: after the name is changed from the one to the other [WasModified]
    still answers false. *)
Lemma fingerprint_sensitivity_counterexample :
  let name := String "255"%char "" in
  let name' := String "254"%char "" in
  let query : dns.Msg example.rr :=
    dns.mkMsg example.hdr false
      [ {| dns.Name := name; dns.Qtype := 1; dns.Qclass := 1 |} ] [] [] [] in
  let j := (NewJSQuery query "10.0.0.7").1 in
  ∃ q : gmap string value,
    Questions j !! 0%nat = Some (Some q) ∧
    q !! "Name" = Some (VString name) ∧
    VString name' ≠ VString name ∧
    returned WasModified
      (set_Questions (<[0%nat := Some (<["Name" := VString name']> q)]>
                        (Questions j)) j) = false.
Proof.
  cbv zeta. eexists. split; [reflexivity|].
  split; [vm_compute; reflexivity|]. split; [discriminate|].
  vm_compute. reflexivity.
Qed.

(** * Further properties of the bridge *)

Lemma accounting {A B} (f : A → result B) (l : list A) :
  length (l ≫= survivor ∘ f) + length (l ≫= failure ∘ f) = length l.
Proof.
  induction l as [|x l IH]; [done|].
  rewrite !bind_cons, !length_app. unfold compose at 1 3.
  destruct (f x); cbn; lia.
Qed.

Lemma elem_of_survivors {A B} (f : A → result B) (l : list A) (y : B) :
  y ∈ l ≫= survivor ∘ f ↔ ∃ x, x ∈ l ∧ f x = Ok y.
Proof.
  rewrite list_elem_of_bind. unfold compose, survivor.
  split; intros (x & H1 & H2).
  - destruct (f x) eqn:E; [|by apply not_elem_of_nil in H1].
    apply list_elem_of_singleton in H1 as ->. eauto.
  - exists x. rewrite H2. split; [by apply list_elem_of_singleton|done].
Qed.

Lemma elem_of_failures {A B} (f : A → result B) (l : list A) (err : string) :
  err ∈ l ≫= failure ∘ f ↔ ∃ x, x ∈ l ∧ f x = Err err.
Proof.
  rewrite list_elem_of_bind. unfold compose, failure.
  split; intros (x & H1 & H2).
  - destruct (f x) eqn:E; [by apply not_elem_of_nil in H1|].
    apply list_elem_of_singleton in H1 as ->. eauto.
  - exists x. rewrite H2. split; [by apply list_elem_of_singleton|done].
Qed.

Lemma unmodified_then j j' :
  returned WasModified j = false → refHash j' = refHash j →
  (returned WasModified j' = true ↔ fingerprint j' ≠ fingerprint j).
Proof.
  intros Hj%WasModified_false Hr. by rewrite WasModified_true, Hr, Hj.
Qed.

Lemma fingerprint_Compress x j :
  fingerprint (set_Compress x j) = fingerprint j → x = Compress j.
Proof.
  intros E. apply verb_t_inj. revert E.
  apply (text.concat_replace "."
    [fmt.verb_s (json.Marshal (Answers j)); client_ip (Client j)]).
Qed.

Lemma fingerprint_Client x j :
  fingerprint (set_Client x j) = fingerprint j →
  client_ip x = client_ip (Client j).
Proof.
  apply (text.concat_replace "." [fmt.verb_s (json.Marshal (Answers j))]).
Qed.

Lemma fresh_WasModified {RR : Type} `{!RecordCodec RR} `{!Lan}
    (query : dns.Msg RR) (clientIP : string) :
  returned WasModified (NewJSQuery query clientIP).1 = false.
Proof. apply WasModified_false. symmetry. apply fresh_refHash. Qed.

Lemma refreshed_WasModified (j : JSQuery) :
  returned WasModified (receiver_after UpdateHash j) = false.
Proof.
  unfold receiver_after. rewrite UpdateHash_eq. cbn [fst snd].
  apply WasModified_false. by rewrite fingerprint_set_refHash.
Qed.

(** X1.  The client mapping [NewJSQuery] builds has exactly the keys ["IP"],
    ["MAC"] and ["Alias"].  ["IP"] is the address it was given; the other two
    come from the endpoint the address book knows under that address, and
    are empty strings when it knows none. *)
Theorem NewJSQuery_client {RR : Type} `{!RecordCodec RR} `{!Lan}
    (query : dns.Msg RR) (clientIP : string) :
  let client := Client (NewJSQuery query clientIP).1 in
  dom client = {["IP"; "MAC"; "Alias"]} ∧
  client !! "IP" = Some clientIP ∧
  match GetByIp clientIP with
  | Some endpoint =>
      client !! "MAC" = Some (HwAddress endpoint) ∧
      client !! "Alias" = Some (Alias endpoint)
  | None => client !! "MAC" = Some "" ∧ client !! "Alias" = Some ""
  end.
Proof.
  destruct (NewJSQuery_eq query clientIP)
    as (b & E & _ & _ & _ & _ & _ & HI & HM & HA & HD & _).
  cbv zeta. rewrite E. cbn [fst Client set_refHash].
  split_and!; [done..|]. by destruct (GetByIp clientIP).
Qed.

(** X2.  [NewJSQuery] builds one mapping per question, in order; the mapping
    of a question has exactly the keys ["Name"], ["Qtype"] and ["Qclass"],
    holding the values of the question. *)
Theorem NewJSQuery_questions {RR : Type} `{!RecordCodec RR} `{!Lan}
    (query : dns.Msg RR) (clientIP : string) :
  let j := (NewJSQuery query clientIP).1 in
  length (Questions j) = length (dns.Question_ query) ∧
  ∀ (i : nat) (q : dns.Question), dns.Question_ query !! i = Some q →
    ∃ m : gmap string value,
      Questions j !! i = Some (Some m) ∧
      dom m = {["Name"; "Qtype"; "Qclass"]} ∧
      m !! "Name" = Some (VString (dns.Name q)) ∧
      m !! "Qtype" = Some (VNum (dns.Qtype q)) ∧
      m !! "Qclass" = Some (VNum (dns.Qclass q)).
Proof.
  destruct (NewJSQuery_eq query clientIP) as (b & E & _ & _ & _ & HQ & _).
  cbv zeta. rewrite E. cbn [fst Questions set_refHash]. rewrite HQ, length_fmap.
  split; [done|]. intros i q Hi. eexists. rewrite list_lookup_fmap, Hi.
  split; [reflexivity|]. split_and!.
  - rewrite !dom_insert_L, dom_empty_L. set_solver.
  - by rewrite lookup_insert_eq.
  - by rewrite lookup_insert_ne, lookup_insert_eq by done.
  - by rewrite !lookup_insert_ne, lookup_insert_eq by done.
Qed.

Lemma NewJSQuery_questions_witness :
  ∃ m : gmap string value,
    Questions (NewJSQuery example.query "10.0.0.7").1 !! 0%nat = Some (Some m) ∧
    m !! "Name" = Some (VString "example.com.").
Proof.
  destruct (proj2 (NewJSQuery_questions example.query "10.0.0.7")
              0%nat example.question eq_refl) as (m & Hm & _ & Hname & _).
  exists m. split; [exact Hm|exact Hname].
Defined.

(** X3.  [NewJSQuery] logs the errors of the records the codec refuses, those
    of the answers first, then those of the additional records, then those
    of the authority records, each in the order of its list; a record the
    codec encodes has its mapping at the index of the record. *)
Theorem NewJSQuery_records {RR : Type} `{!RecordCodec RR} `{!Lan}
    (query : dns.Msg RR) (clientIP : string) :
  let j := (NewJSQuery query clientIP).1 in
  (NewJSQuery query clientIP).2
    = (dns.Answer query ≫= failure ∘ NewJSResourceRecord)
      ++ (dns.Extra query ≫= failure ∘ NewJSResourceRecord)
      ++ (dns.Ns query ≫= failure ∘ NewJSResourceRecord) ∧
  ∀ (i : nat) (rr : RR) (js : jsmap), NewJSResourceRecord rr = Ok js →
    (dns.Answer query !! i = Some rr → Answers j !! i = Some js) ∧
    (dns.Extra query !! i = Some rr → Extras j !! i = Some js) ∧
    (dns.Ns query !! i = Some rr → Nameservers j !! i = Some js).
Proof.
  destruct (NewJSQuery_eq query clientIP) as (b & E & HA & HE & HN & _).
  cbv zeta. rewrite E. cbn [fst snd Answers Extras Nameservers set_refHash].
  split; [done|]. intros i rr js Hjs.
  assert (slot rr = js) as Hslot by (unfold slot; by rewrite Hjs).
  rewrite HA, HE, HN, !list_lookup_fmap.
  split_and!; intros ->; cbn; by rewrite Hslot.
Qed.

Lemma NewJSQuery_records_witness :
  Answers (NewJSQuery example.partial "10.0.0.7").1 !! 1%nat
  = Some (slot example.rr1).
Proof.
  exact (proj1 (proj2 (NewJSQuery_records example.partial "10.0.0.7")
                  1%nat example.rr1 (slot example.rr1) eq_refl) eq_refl).
Defined.

(** X4.  [ToQuery] accounts for every mapping of the three record lists: it
    is either converted or logged, so the records returned and the errors
    logged are together as many as the mappings.  A record is among the
    answers exactly when it is the conversion of a mapping of [Answers]
    (likewise for the other two lists), and a message is logged exactly when
    it is the error of a mapping of one of the three lists. *)
Theorem ToQuery_accounts_for_mappings {RR : Type} `{!RecordCodec RR}
    (j : JSQuery) :
  let msg := returned (ToQuery (RR := RR)) j in
  let log := logged_by (ToQuery (RR := RR)) j in
  (length (dns.Answer msg) + length (dns.Extra msg) + length (dns.Ns msg)
     + length log
   = length (Answers j) + length (Extras j) + length (Nameservers j))%nat ∧
  (length (dns.Answer msg) ≤ length (Answers j) ∧
   length (dns.Extra msg) ≤ length (Extras j) ∧
   length (dns.Ns msg) ≤ length (Nameservers j)) ∧
  (∀ rr, rr ∈ dns.Answer msg ↔ ∃ js, js ∈ Answers j ∧ ToRR js = Ok rr) ∧
  (∀ rr, rr ∈ dns.Extra msg ↔ ∃ js, js ∈ Extras j ∧ ToRR js = Ok rr) ∧
  (∀ rr, rr ∈ dns.Ns msg ↔ ∃ js, js ∈ Nameservers j ∧ ToRR js = Ok rr) ∧
  (∀ err, err ∈ log ↔
     ∃ js, js ∈ Answers j ++ Extras j ++ Nameservers j ∧
           ToRR (RR := RR) js = Err err).
Proof.
  cbv zeta. unfold returned, logged_by. rewrite ToQuery_eq.
  cbn [fst snd dns.Answer dns.Extra dns.Ns].
  pose proof (accounting (ToRR (RR := RR)) (Answers j)).
  pose proof (accounting (ToRR (RR := RR)) (Extras j)).
  pose proof (accounting (ToRR (RR := RR)) (Nameservers j)).
  split_and!; rewrite ?length_app; try lia;
    try (intros rr; apply elem_of_survivors).
  intros err. rewrite !elem_of_app, !elem_of_failures. split.
  - intros [(js & ? & ?)|[(js & ? & ?)|(js & ? & ?)]];
      exists js; rewrite !elem_of_app; auto.
  - intros (js & Hin & ?). rewrite !elem_of_app in Hin.
    destruct Hin as [?|[?|?]]; eauto.
Qed.

(** X5.  The header and the compression flag survive the way back: whatever
    the header of a representation holds, rebuilding the message and
    building a representation of it again gives the same header and the
    same flag. *)
Theorem header_roundtrip {RR : Type} `{!RecordCodec RR} `{!Lan}
    (j : JSQuery) (clientIP : string) :
  let j' := (NewJSQuery (returned (ToQuery (RR := RR)) j) clientIP).1 in
  Header j' = Header j ∧ Compress j' = Compress j.
Proof.
  cbv zeta.
  destruct (NewJSQuery_eq (returned (ToQuery (RR := RR)) j) clientIP)
    as (b & E & _ & _ & _ & _ & HC & _ & _ & _ & _ & HH).
  rewrite E. cbn [fst Header Compress set_refHash]. rewrite HH, HC.
  unfold returned. rewrite ToQuery_eq. cbn. by destruct (Header j).
Qed.

(** X6.  [UpdateHash] makes the present state the baseline: after it
    [WasModified] answers false, whatever was edited before.  It assigns
    [refHash] and nothing else, logs nothing, leaves [NewHash] as it was, and
    calling it again changes nothing. *)
Theorem UpdateHash_refreshes (j : JSQuery) :
  let j' := receiver_after UpdateHash j in
  returned WasModified j' = false ∧
  j' = set_refHash (returned NewHash j) j ∧
  returned NewHash j' = returned NewHash j ∧
  receiver_after UpdateHash j' = j' ∧
  logged_by UpdateHash j = [].
Proof.
  cbv zeta. unfold receiver_after, logged_by. rewrite !UpdateHash_eq.
  cbn [fst snd]. split_and!.
  - apply WasModified_false. by rewrite fingerprint_set_refHash.
  - reflexivity.
  - apply fingerprint_set_refHash.
  - by rewrite fingerprint_set_refHash.
  - reflexivity.
Qed.

(** X7.  Detection does not depend on the query being fresh.  On any query
    for which [WasModified] answers false (freshly built, or refreshed by
    [UpdateHash]) it answers true after the header is given another value,
    the compression flag is flipped or the client address is changed; and
    after a mapping is appended to or removed from one of the four lists,
    provided [json.Marshal] accepts that list as it was (when it does not,
    [NewHash] prints nothing for the list, whatever it holds). *)
Theorem edits_detected_when_unmodified (j : JSQuery) :
  returned WasModified j = false →
  (∀ header, header ≠ Header j →
     returned WasModified (set_Header header j) = true) ∧
  returned WasModified (set_Compress (negb (Compress j)) j) = true ∧
  (∀ client, client_ip client ≠ client_ip (Client j) →
     returned WasModified (set_Client client j) = true) ∧
  (∀ r : jsmap,
     (is_Some (json.Marshal (Answers j)) →
        returned WasModified (set_Answers (Answers j ++ [r]) j) = true) ∧
     (is_Some (json.Marshal (Extras j)) →
        returned WasModified (set_Extras (Extras j ++ [r]) j) = true) ∧
     (is_Some (json.Marshal (Nameservers j)) →
        returned WasModified
          (set_Nameservers (Nameservers j ++ [r]) j) = true) ∧
     (is_Some (json.Marshal (Questions j)) →
        returned WasModified (set_Questions (Questions j ++ [r]) j) = true)) ∧
  (∀ i : nat,
     (is_Some (json.Marshal (Answers j)) → i < length (Answers j) →
        returned WasModified (set_Answers (delete i (Answers j)) j) = true) ∧
     (is_Some (json.Marshal (Extras j)) → i < length (Extras j) →
        returned WasModified (set_Extras (delete i (Extras j)) j) = true) ∧
     (is_Some (json.Marshal (Nameservers j)) → i < length (Nameservers j) →
        returned WasModified
          (set_Nameservers (delete i (Nameservers j)) j) = true) ∧
     (is_Some (json.Marshal (Questions j)) → i < length (Questions j) →
        returned WasModified
          (set_Questions (delete i (Questions j)) j) = true)).
Proof.
  intros Hj.
  assert (∀ j', refHash j' = refHash j → fingerprint j' ≠ fingerprint j →
            returned WasModified j' = true) as Hmod.
  { intros j' Hr Hf. by apply (unmodified_then j j'). }
  split_and!.
  - intros header Hne. apply Hmod; [done|]. by intros E%fingerprint_Header.
  - apply Hmod; [done|]. intros E%fingerprint_Compress. by destruct (Compress j).
  - intros client Hne. apply Hmod; [done|]. by intros E%fingerprint_Client.
  - intros r. split_and!; intros Hl; apply Hmod; try done.
    + intros E%fingerprint_Answers. by apply printed_append in E.
    + intros E%fingerprint_Extras. by apply printed_append in E.
    + intros E%fingerprint_Nameservers. by apply printed_append in E.
    + intros E%fingerprint_Questions. by apply printed_append in E.
  - intros i. split_and!; intros Hl Hi; apply Hmod; try done.
    + intros E%fingerprint_Answers. by apply printed_delete in E.
    + intros E%fingerprint_Extras. by apply printed_delete in E.
    + intros E%fingerprint_Nameservers. by apply printed_delete in E.
    + intros E%fingerprint_Questions. by apply printed_delete in E.
Qed.

Lemma edits_detected_when_unmodified_witness :
  let j := receiver_after UpdateHash
             (set_Compress true (NewJSQuery example.response "10.0.0.7").1) in
  returned WasModified (set_Compress (negb (Compress j)) j) = true ∧
  returned WasModified (set_Answers (delete 1%nat (Answers j)) j) = true.
Proof.
  intros j.
  pose proof (edits_detected_when_unmodified j (refreshed_WasModified _))
    as (_ & Hcompress & _ & _ & Hdelete).
  split; [exact Hcompress|].
  refine (proj1 (Hdelete 1%nat) _ _).
  - vm_compute. eexists. reflexivity.
  - vm_compute. lia.
Defined.

(** X8.  Writing another mapping over one mapping of a list that
    [json.Marshal] accepts is detected exactly when [Marshal] does not
    return for the new mapping what it returns for the old one (another
    text, or an error): on a query for which [WasModified] answers false, it
    answers true after the replacement if and only if the two results
    differ. *)
Theorem replacement_detected_iff (j : JSQuery) (i : nat) (old new : jsmap) :
  returned WasModified j = false →
  (is_Some (json.Marshal (Answers j)) → Answers j !! i = Some old →
     returned WasModified (set_Answers (<[i := new]> (Answers j)) j) = true
     ↔ json.encode_map new ≠ json.encode_map old) ∧
  (is_Some (json.Marshal (Extras j)) → Extras j !! i = Some old →
     returned WasModified (set_Extras (<[i := new]> (Extras j)) j) = true
     ↔ json.encode_map new ≠ json.encode_map old) ∧
  (is_Some (json.Marshal (Nameservers j)) → Nameservers j !! i = Some old →
     returned WasModified
       (set_Nameservers (<[i := new]> (Nameservers j)) j) = true
     ↔ json.encode_map new ≠ json.encode_map old) ∧
  (is_Some (json.Marshal (Questions j)) → Questions j !! i = Some old →
     returned WasModified (set_Questions (<[i := new]> (Questions j)) j) = true
     ↔ json.encode_map new ≠ json.encode_map old).
Proof.
  intros Hj.
  split_and!; intros Hl Hi; rewrite (unmodified_then j) by done;
    rewrite <-(printed_replace _ i old new Hl Hi);
    (split; intros Hne E; apply Hne).
  - unfold fingerprint. cbn [Answers Client Compress Extras Header Nameservers
      Questions set_Answers]. by rewrite E.
  - by apply fingerprint_Answers.
  - unfold fingerprint. cbn [Answers Client Compress Extras Header Nameservers
      Questions set_Extras]. by rewrite E.
  - by apply fingerprint_Extras.
  - unfold fingerprint. cbn [Answers Client Compress Extras Header Nameservers
      Questions set_Nameservers]. by rewrite E.
  - by apply fingerprint_Nameservers.
  - unfold fingerprint. cbn [Answers Client Compress Extras Header Nameservers
      Questions set_Questions]. by rewrite E.
  - by apply fingerprint_Questions.
Qed.

Lemma replacement_detected_iff_witness :
  let j := (NewJSQuery example.response "10.0.0.7").1 in
  returned WasModified
    (set_Answers (<[0%nat := Some (<["A" := VUnsupported]> ∅)]> (Answers j)) j)
  = true.
Proof.
  intros j.
  refine (proj2 (proj1 (replacement_detected_iff j 0%nat (slot example.rr1)
                          (Some (<["A" := VUnsupported]> ∅))
                          (fresh_WasModified _ _)) _ eq_refl) _).
  - vm_compute. eexists. reflexivity.
  - vm_compute. discriminate.
Defined.

(** X9.  The message [ToQuery] returns and the errors it logs do not depend
    on the client mapping or on [refHash].  So an edit of the client address
    is reported by [WasModified] although the rebuilt message is the same as
    before the edit. *)
Theorem ToQuery_ignores_client {RR : Type} `{!RecordCodec RR}
    (j : JSQuery) (client : gmap string string) (h : string) :
  returned (ToQuery (RR := RR)) (set_Client client j) = returned ToQuery j ∧
  logged_by (ToQuery (RR := RR)) (set_Client client j) = logged_by ToQuery j ∧
  returned (ToQuery (RR := RR)) (set_refHash h j) = returned ToQuery j ∧
  logged_by (ToQuery (RR := RR)) (set_refHash h j) = logged_by ToQuery j ∧
  (returned WasModified j = false →
   client_ip client ≠ client_ip (Client j) →
   returned WasModified (set_Client client j) = true).
Proof.
  unfold returned at 1 2 3 4, logged_by. rewrite !ToQuery_eq.
  split_and!; try reflexivity.
  intros Hj Hne. apply (unmodified_then j); [done..|].
  by intros E%fingerprint_Client.
Qed.

Lemma ToQuery_ignores_client_witness :
  let j := (NewJSQuery example.query "10.0.0.7").1 in
  returned WasModified (set_Client (<["IP" := "10.0.0.8"]> (Client j)) j) = true.
Proof.
  intros j.
  refine (proj2 (proj2 (proj2 (proj2
            (ToQuery_ignores_client (RR := example.rr) j
               (<["IP" := "10.0.0.8"]> (Client j)) ""))))
            (fresh_WasModified _ _) _).
  vm_compute. discriminate.
Defined.

(** X10.  Through both directions a record the codec cannot encode is
    dropped and the others come back in their order.  The slot [NewJSQuery]
    leaves for a refused record holds the [nil] mapping; when the codec
    refuses that mapping too, and represents every record it encodes, the
    answers of [ToQuery (NewJSQuery m)] are the encodable answers of [m]. *)
Theorem roundtrip_drops_refused {RR : Type} `{!RecordCodec RR} `{!Lan}
    (query : dns.Msg RR) (clientIP : string) (err : string) :
  ToRR (RR := RR) None = Err err →
  Forall (λ rr, represents rr ∨ ∃ e, NewJSResourceRecord rr = Err e)
    (dns.Answer query) →
  let j := (NewJSQuery query clientIP).1 in
  dns.Answer (returned ToQuery j)
    = dns.Answer query ≫=
        (λ rr, match NewJSResourceRecord rr with Ok _ => [rr] | Err _ => [] end) ∧
  (length (dns.Answer (returned ToQuery j))
     + length (dns.Answer query ≫= failure ∘ NewJSResourceRecord)
   = length (dns.Answer query))%nat.
Proof.
  intros Hnil Hall. cbv zeta.
  destruct (NewJSQuery_eq query clientIP) as (b & E & HA & _).
  rewrite E. unfold returned. rewrite ToQuery_eq.
  cbn [fst dns.Answer Answers set_refHash]. rewrite HA. clear E HA b.
  induction Hall as [|rr rrs Hrr _ [IH1 IH2]]; [done|].
  rewrite fmap_cons, !bind_cons, !length_app, IH1.
  assert ((survivor ∘ ToRR) (slot rr)
          = match NewJSResourceRecord rr with Ok _ => [rr] | Err _ => [] end
          ∧ length ((survivor ∘ ToRR) (slot rr))
            + length ((failure ∘ NewJSResourceRecord) rr) = 1) as [-> Hone].
  { unfold slot, compose.
    destruct Hrr as [(js & Hjs & Hback)|[e He]].
    - by rewrite Hjs, Hback.
    - by rewrite He, Hnil. }
  split; [done|]. rewrite <-IH1. cbn [length]. lia.
Qed.

Lemma roundtrip_drops_refused_witness :
  dns.Answer (returned ToQuery (NewJSQuery example.partial "10.0.0.7").1)
  = [example.rr1].
Proof.
  refine (proj1 (roundtrip_drops_refused example.partial "10.0.0.7" "bad record"
                   eq_refl _)).
  constructor; [|constructor; [|constructor]].
  - right. eexists. reflexivity.
  - left. eexists. split; [reflexivity | vm_compute; reflexivity].
Defined.

(** X11.  A mapping a script appends to [Answers] is converted on its own:
    when the codec decodes it, its record is appended to the answers
    [ToQuery] returns and nothing more is logged; when the codec refuses it,
    the answers are as before and its error is logged after those of the
    other answers.  Questions, authority and additional records and the
    header are as before in both cases. *)
Theorem ToQuery_appended_answer {RR : Type} `{!RecordCodec RR}
    (j : JSQuery) (r : jsmap) :
  let msg := returned (ToQuery (RR := RR)) j in
  let msg' := returned (ToQuery (RR := RR)) (set_Answers (Answers j ++ [r]) j) in
  let log' := logged_by (ToQuery (RR := RR)) (set_Answers (Answers j ++ [r]) j) in
  dns.Hdr msg' = dns.Hdr msg ∧ dns.Compress msg' = dns.Compress msg ∧
  dns.Question_ msg' = dns.Question_ msg ∧
  dns.Ns msg' = dns.Ns msg ∧ dns.Extra msg' = dns.Extra msg ∧
  match ToRR r with
  | Ok rr =>
      dns.Answer msg' = dns.Answer msg ++ [rr] ∧
      log' = logged_by (ToQuery (RR := RR)) j
  | Err err =>
      dns.Answer msg' = dns.Answer msg ∧
      log' = (js_to_records (RR := RR) (Answers j)).2 ++ [err]
             ++ (js_to_records (RR := RR) (Extras j)).2
             ++ (js_to_records (RR := RR) (Nameservers j)).2
  end.
Proof.
  cbv zeta. unfold returned, logged_by. rewrite !ToQuery_eq, !js_to_records_eq.
  cbn [fst snd dns.Hdr dns.Compress dns.Question_ dns.Ns dns.Extra dns.Answer
       Answers Extras Nameservers Questions Compress Header set_Answers].
  assert (∀ B (f : jsmap → list B), [r] ≫= f = f r) as Hone
    by (intros; apply app_nil_r).
  rewrite !bind_app, !Hone.
  split_and!; try reflexivity.
  assert ((survivor ∘ ToRR (RR := RR)) r = survivor (ToRR r)) as -> by done.
  assert ((failure ∘ ToRR (RR := RR)) r = failure (ToRR r)) as -> by done.
  destruct (ToRR r) as [rr|err]; cbn [survivor failure];
    by rewrite ?app_nil_r, <-?app_assoc.
Qed.
